(** * backendPelis: the movie/comments REST backend and its MongoDB facade

    A shallow embedding of [src/libs/mongo.ts] (the query facade) and of the
    Express entry file (the four route handlers), together with a model of
    the parts of the MongoDB driver and server that the code talks to.

    Conventions.
    - An [async] function is a computation in the monad [Async]: it reads and
      writes the [World] (module variables of [libs/mongo.ts], the driver's
      clients, the database contents, the console) and ends [Resolved],
      [Rejected] (a thrown value or a rejected promise) or [Unmodelled] (the
      driver was asked something this development does not describe).
    - Calls are sequential: every call is awaited before the next one starts.
    - The server is assumed reachable and responsive once a client exists;
      the only driver-side failures described are the ones the code itself
      anticipates or the properties below depend on. *)

From stdpp Require Import gmap strings list.
From Stdlib Require Import ZArith NArith Ascii String Lia.

Local Open Scope string_scope.
Local Open Scope list_scope.

(* ===================================================================== *)
(** ** Characters and strings *)
(* ===================================================================== *)

Definition chars (s : string) : list ascii := list_ascii_of_string s.

(** ASCII case folding: [A]..[Z] go to [a]..[z], everything else stays. *)
Definition to_lower (c : ascii) : ascii :=
  let n := nat_of_ascii c in
  if (65 <=? n)%nat && (n <=? 90)%nat then ascii_of_nat (n + 32) else c.

Definition lower (l : list ascii) : list ascii := map to_lower l.

Definition mem_ascii (c : ascii) (l : list ascii) : bool :=
  existsb (Ascii.eqb c) l.

(** JavaScript truthiness of a string: only the empty string is falsy. *)
Definition truthy_string (s : string) : bool :=
  match s with EmptyString => false | _ => true end.

(* ===================================================================== *)
(** ** BSON values and documents *)
(* ===================================================================== *)

(** An [ObjectId] is the 96-bit number its twelve bytes encode. *)
Inductive ObjectId := OID (n : N).

Definition oid_value (o : ObjectId) : N := let 'OID n := o in n.

Definition ObjectId_eqb (a b : ObjectId) : bool :=
  N.eqb (oid_value a) (oid_value b).

Definition hex_digit (c : ascii) : option N :=
  let n := nat_of_ascii c in
  if (48 <=? n)%nat && (n <=? 57)%nat then Some (N.of_nat (n - 48))
  else if (97 <=? n)%nat && (n <=? 102)%nat then Some (N.of_nat (n - 87))
  else if (65 <=? n)%nat && (n <=? 70)%nat then Some (N.of_nat (n - 55))
  else None.

Fixpoint hex_value (acc : N) (l : list ascii) : option N :=
  match l with
  | [] => Some acc
  | c :: l' =>
      match hex_digit c with
      | Some d => hex_value (16 * acc + d)%N l'
      | None => None
      end
  end.

(** The number a sequence of bytes encodes, most significant byte first. *)
Fixpoint bytes_value (acc : N) (l : list ascii) : N :=
  match l with
  | [] => acc
  | c :: l' => bytes_value (256 * acc + N.of_nat (nat_of_ascii c))%N l'
  end.

Definition is_ascii_char (c : ascii) : bool := (nat_of_ascii c <? 128)%nat.

(** [new ObjectId(s)] for a string argument: a string of 12 characters that
    make 12 bytes is taken as the raw bytes, a string of 24 hexadecimal
    digits is decoded, and anything else makes the constructor throw.
    Strings are byte strings here, so 12 characters that make 12 bytes are
    12 bytes below 128. *)
Definition ObjectId_parse (s : string) : option ObjectId :=
  if (List.length (chars s) =? 12)%nat && forallb is_ascii_char (chars s)
  then Some (OID (bytes_value 0%N (chars s)))
  else if (List.length (chars s) =? 24)%nat
  then option_map OID (hex_value 0%N (chars s))
  else None.

Definition well_formed_id (s : string) : Prop :=
  exists o, ObjectId_parse s = Some o.

Inductive Value :=
| VString (s : string)
| VNumber (n : Z)
| VObjectId (o : ObjectId)
| VDate (t : Z)
| VStrings (l : list string).

Definition Value_eqb (a b : Value) : bool :=
  match a, b with
  | VString x, VString y => String.eqb x y
  | VNumber x, VNumber y => Z.eqb x y
  | VObjectId x, VObjectId y => ObjectId_eqb x y
  | VDate x, VDate y => Z.eqb x y
  | VStrings x, VStrings y =>
      (List.length x =? List.length y)%nat
      && forallb (fun p => String.eqb (fst p) (snd p)) (combine x y)
  | _, _ => false
  end.

(** A document keeps its fields in order, as a BSON document does. *)
Definition Document := list (string * Value).

Fixpoint doc_get (f : string) (d : Document) : option Value :=
  match d with
  | [] => None
  | (k, v) :: d' => if String.eqb k f then Some v else doc_get f d'
  end.

Definition doc_id (d : Document) : option Value := doc_get "_id" d.

(* ===================================================================== *)
(** ** The server's [$regex] operator, on a fragment of the pattern syntax *)
(* ===================================================================== *)

(** Pattern characters with a special meaning. A pattern that uses any of
    them except the dot is outside the fragment described here. *)
Definition regex_special : list ascii :=
  chars "\^$.[]|()?*+{}".

Definition plain_char (c : ascii) : bool := negb (mem_ascii c regex_special).

Definition plain_pattern (t : string) : Prop :=
  forallb plain_char (chars t) = true.

Inductive RxAtom :=
| RxLit (c : ascii)
| RxDot.

Fixpoint rx_parse (p : list ascii) : option (list RxAtom) :=
  match p with
  | [] => Some []
  | c :: p' =>
      if Ascii.eqb c "." then option_map (cons RxDot) (rx_parse p')
      else if plain_char c then option_map (cons (RxLit c)) (rx_parse p')
      else None
  end.

Record RxFlags := { rx_caseless : bool; rx_dotall : bool; rx_extended : bool }.

(** The option string is read one character at a time; characters that are
    not option letters are ignored, as the servers this code was written
    against (before 5.1) do for find queries. *)
Definition rx_flags (options : string) : RxFlags :=
  {| rx_caseless := mem_ascii "i" (chars options);
     rx_dotall := mem_ascii "s" (chars options);
     rx_extended := mem_ascii "x" (chars options) |}.

Definition newline : ascii := ascii_of_nat 10.

Definition rx_atom_match (fl : RxFlags) (a : RxAtom) (c : ascii) : bool :=
  match a with
  | RxLit x =>
      if rx_caseless fl then Ascii.eqb (to_lower x) (to_lower c)
      else Ascii.eqb x c
  | RxDot => rx_dotall fl || negb (Ascii.eqb c newline)
  end.

(** The atoms match a prefix of the subject. *)
Fixpoint rx_match_here (fl : RxFlags) (atoms : list RxAtom) (s : list ascii) : bool :=
  match atoms, s with
  | [], _ => true
  | _ :: _, [] => false
  | a :: atoms', c :: s' => rx_atom_match fl a c && rx_match_here fl atoms' s'
  end.

(** Unanchored search: the atoms match somewhere in the subject. *)
Fixpoint rx_search (fl : RxFlags) (atoms : list RxAtom) (s : list ascii) : bool :=
  rx_match_here fl atoms s
  || match s with
     | [] => false
     | _ :: s' => rx_search fl atoms s'
     end.

(** [None]: the pattern or the options are outside the fragment. *)
Definition regex_test (pattern options subject : string) : option bool :=
  let fl := rx_flags options in
  if rx_extended fl then None
  else option_map (fun atoms => rx_search fl atoms (chars subject))
                  (rx_parse (chars pattern)).

(* ===================================================================== *)
(** ** Filters, projections, sorts *)
(* ===================================================================== *)

(** The part of the filter language the handlers construct. *)
Inductive Filter :=
| FAll                                                  (* {} *)
| FEq (field : string) (v : Value)                      (* { field: v } *)
| FRegex (field : string) (pattern options : string).   (* { field: { $regex, $options } } *)

(** Equality against a field also matches an array holding the value. *)
Definition value_matches_eq (v stored : Value) : bool :=
  Value_eqb stored v
  || match stored, v with
     | VStrings l, VString s => existsb (String.eqb s) l
     | _, _ => false
     end.

Fixpoint regex_any (pattern options : string) (l : list string) : option bool :=
  match l with
  | [] => Some false
  | s :: l' =>
      match regex_test pattern options s, regex_any pattern options l' with
      | Some b, Some b' => Some (b || b')
      | _, _ => None
      end
  end.

(** A pattern applies to strings and to the elements of a string array. *)
Definition value_matches_regex (pattern options : string) (stored : Value) : option bool :=
  match stored with
  | VString s => regex_test pattern options s
  | VStrings l => regex_any pattern options l
  | _ => option_map (fun _ => false) (regex_test pattern options "")
  end.

Definition filter_matches (q : Filter) (d : Document) : option bool :=
  match q with
  | FAll => Some true
  | FEq f v =>
      Some (match doc_get f d with
            | Some stored => value_matches_eq v stored
            | None => false
            end)
  | FRegex f pattern options =>
      match doc_get f d with
      | Some stored => value_matches_regex pattern options stored
      | None => option_map (fun _ => false) (regex_test pattern options "")
      end
  end.

Fixpoint select (q : Filter) (docs : list Document) : option (list Document) :=
  match docs with
  | [] => Some []
  | d :: docs' =>
      match filter_matches q d, select q docs' with
      | Some b, Some rest => Some (if b then d :: rest else rest)
      | _, _ => None
      end
  end.

(** A projection object: field name and 1 ([true]) or 0 ([false]). *)
Definition Projection := list (string * bool).

Definition proj_lookup (f : string) (p : Projection) : option bool :=
  snd <$> List.find (fun e => String.eqb (fst e) f) p.

Definition not_id (e : string * bool) : bool := negb (String.eqb (fst e) "_id").

Definition proj_has_inclusion (p : Projection) : bool :=
  existsb (fun e => snd e) p.

(** Inclusions and exclusions cannot be mixed, [_id] apart. *)
Definition proj_valid (p : Projection) : bool :=
  negb (existsb (fun e => not_id e && snd e) p
        && existsb (fun e => not_id e && negb (snd e)) p).

(** An inclusion projection keeps the listed fields the document has, and
    [_id] unless it is switched off; an exclusion projection drops the
    listed fields; the empty projection keeps the document. *)
Definition keep_field (p : Projection) (f : string) : bool :=
  if proj_has_inclusion p then
    match proj_lookup f p with
    | Some b => b
    | None => String.eqb f "_id"
    end
  else
    match proj_lookup f p with
    | Some b => b
    | None => true
    end.

Definition project (p : Projection) (d : Document) : Document :=
  List.filter (fun e => keep_field p (fst e)) d.

(** [sort] is a string or an object: the empty string is falsy, an object
    (also the empty one) is a list of keys with their direction. *)
Inductive Sort :=
| SortString (s : string)
| SortKeys (keys : list (string * bool)).

Definition truthy_sort (s : Sort) : bool :=
  match s with
  | SortString s => truthy_string s
  | SortKeys _ => true
  end.

Definition sort_keys (s : Sort) : list (string * bool) :=
  match s with
  | SortString f => [(f, true)]
  | SortKeys keys => keys
  end.

(** BSON comparison order on the value kinds modelled; a missing field
    sorts first. Arrays are not compared element-wise here. *)
Definition type_rank (v : option Value) : nat :=
  match v with
  | None => 0
  | Some (VNumber _) => 1
  | Some (VString _) => 2
  | Some (VStrings _) => 3
  | Some (VObjectId _) => 4
  | Some (VDate _) => 5
  end.

Definition value_compare (a b : option Value) : comparison :=
  match a, b with
  | Some (VNumber x), Some (VNumber y) => Z.compare x y
  | Some (VString x), Some (VString y) => String.compare x y
  | Some (VObjectId x), Some (VObjectId y) => N.compare (oid_value x) (oid_value y)
  | Some (VDate x), Some (VDate y) => Z.compare x y
  | _, _ => Nat.compare (type_rank a) (type_rank b)
  end.

Fixpoint doc_le (keys : list (string * bool)) (a b : Document) : bool :=
  match keys with
  | [] => true
  | (f, asc) :: keys' =>
      match value_compare (doc_get f a) (doc_get f b) with
      | Eq => doc_le keys' a b
      | Lt => asc
      | Gt => negb asc
      end
  end.

Fixpoint sort_insert (keys : list (string * bool)) (d : Document) (l : list Document)
  : list Document :=
  match l with
  | [] => [d]
  | x :: l' => if doc_le keys d x then d :: l else x :: sort_insert keys d l'
  end.

(** Stable: among equal keys the stored order is kept. *)
Definition sort_docs (keys : list (string * bool)) (l : list Document) : list Document :=
  fold_right (sort_insert keys) [] l.

(* ===================================================================== *)
(** ** JavaScript values, errors and the world *)
(* ===================================================================== *)

Inductive JsError :=
| ErrString (s : string)          (* a string used as rejection reason *)
| ErrType (msg : string)          (* TypeError *)
| ErrBSON (msg : string)          (* BSONTypeError, from the ObjectId constructor *)
| ErrMongo (name msg : string).   (* an error object of the driver or the server *)

Inductive JsVal :=
| JUndefined
| JBool (b : bool)
| JNumber (n : Z)
| JString (s : string)
| JDoc (d : Document)
| JDocs (l : list Document)
| JInsertOneResult (insertedId : Value).   (* { acknowledged: true, insertedId } *)

(** [limit: number | boolean]; counts are natural numbers here. *)
Inductive Limit :=
| LimBool (b : bool)
| LimNum (n : nat).

Definition truthy_limit (l : Limit) : bool :=
  match l with
  | LimBool b => b
  | LimNum n => negb (n =? 0)%nat
  end.

(** [limit == true]: loose equality converts [true] to the number 1. *)
Definition loose_eq_true (l : Limit) : bool :=
  match l with
  | LimBool b => b
  | LimNum n => (n =? 1)%nat
  end.

(** [limit === true] *)
Definition strict_eq_true (l : Limit) : bool :=
  match l with
  | LimBool b => b
  | LimNum _ => false
  end.

(** The argument handed to [cursor.limit] when [limit] is truthy. *)
Definition limit_number (l : Limit) : nat :=
  if loose_eq_true l then 1%nat
  else match l with LimNum n => n | LimBool _ => 0%nat end.

Definition Options := list (string * string).

Record MongoConf := { uri : string; db : string; options : Options }.

(** Handles of the driver. A client is named by its creation rank. *)
Record Db := { db_client : nat; db_name : string }.
Record CollectionH := { coll_db : Db; coll_name : string }.

(** What [MongoClient.connect] hands to its callback. *)
Inductive ConnectAnswer :=
| AnswerErr (err : JsError)
| AnswerNoClient
| AnswerClient.

Inductive LogArg :=
| LText (s : string)
| LVal (v : JsVal)
| LErr (e : JsError)
| LQuery (q : Filter).

Inductive Event :=
| EvConnect (uri : string) (answer : ConnectAnswer)
| EvClose (client : nat)
| EvFind (coll : string) (q : Filter)
| EvInsertOne (coll : string) (d : Document)
| EvCount (coll : string) (q : Filter)
| EvListCollections (name : string)
| EvCommand (op coll : string)
| EvLog (args : list LogArg).

Record World := {
  (* module variables of libs/mongo.ts *)
  DB : option Db;
  clientDB : option nat;
  (* the driver and the network *)
  net : list ConnectAnswer;          (* answers the next connection attempts get *)
  clients : nat;                     (* clients created so far *)
  closed : gset nat;                 (* clients that were closed *)
  (* the database the handle designates: collection name to documents *)
  store : gmap string (list Document);
  (* sources of fresh values *)
  oid_next : N;                      (* what the next [new ObjectId()] yields *)
  clock : Z;                         (* what [new Date()] reads *)
  (* driver calls and console output, oldest first *)
  trace : list Event
}.

Definition set_DB (v : option Db) (w : World) : World :=
  {| DB := v; clientDB := clientDB w; net := net w; clients := clients w;
     closed := closed w; store := store w; oid_next := oid_next w;
     clock := clock w; trace := trace w |}.

Definition set_clientDB (v : option nat) (w : World) : World :=
  {| DB := DB w; clientDB := v; net := net w; clients := clients w;
     closed := closed w; store := store w; oid_next := oid_next w;
     clock := clock w; trace := trace w |}.

Definition set_net (v : list ConnectAnswer) (w : World) : World :=
  {| DB := DB w; clientDB := clientDB w; net := v; clients := clients w;
     closed := closed w; store := store w; oid_next := oid_next w;
     clock := clock w; trace := trace w |}.

Definition set_clients (v : nat) (w : World) : World :=
  {| DB := DB w; clientDB := clientDB w; net := net w; clients := v;
     closed := closed w; store := store w; oid_next := oid_next w;
     clock := clock w; trace := trace w |}.

Definition set_closed (v : gset nat) (w : World) : World :=
  {| DB := DB w; clientDB := clientDB w; net := net w; clients := clients w;
     closed := v; store := store w; oid_next := oid_next w;
     clock := clock w; trace := trace w |}.

Definition set_store (v : gmap string (list Document)) (w : World) : World :=
  {| DB := DB w; clientDB := clientDB w; net := net w; clients := clients w;
     closed := closed w; store := v; oid_next := oid_next w;
     clock := clock w; trace := trace w |}.

Definition set_oid_next (v : N) (w : World) : World :=
  {| DB := DB w; clientDB := clientDB w; net := net w; clients := clients w;
     closed := closed w; store := store w; oid_next := v;
     clock := clock w; trace := trace w |}.

Definition emit (e : Event) (w : World) : World :=
  {| DB := DB w; clientDB := clientDB w; net := net w; clients := clients w;
     closed := closed w; store := store w; oid_next := oid_next w;
     clock := clock w; trace := trace w ++ [e] |}.

Definition documents (w : World) (coll : string) : list Document :=
  default [] (store w !! coll).

(* ===================================================================== *)
(** ** The monad of asynchronous computations *)
(* ===================================================================== *)

Inductive Outcome (A : Type) :=
| Resolved (a : A)
| Rejected (e : JsError)
| Unmodelled.

Arguments Resolved {A} a.
Arguments Rejected {A} e.
Arguments Unmodelled {A}.

Definition Async (A : Type) : Type := World -> Outcome A * World.

Definition ret {A} (a : A) : Async A := fun w => (Resolved a, w).

Definition reject {A} (e : JsError) : Async A := fun w => (Rejected e, w).

Definition unmodelled {A} : Async A := fun w => (Unmodelled, w).

Definition bind {A B} (m : Async A) (k : A -> Async B) : Async B :=
  fun w =>
    match m w with
    | (Resolved a, w') => k a w'
    | (Rejected e, w') => (Rejected e, w')
    | (Unmodelled, w') => (Unmodelled, w')
    end.

(** [try { await m } catch (error) { h error }] *)
Definition try_catch {A} (m : Async A) (h : JsError -> Async A) : Async A :=
  fun w =>
    match m w with
    | (Rejected e, w') => h e w'
    | r => r
    end.

Definition read {A} (f : World -> A) : Async A := fun w => (Resolved (f w), w).

Definition update (f : World -> World) : Async unit := fun w => (Resolved tt, f w).

Declare Scope async_scope.
Delimit Scope async_scope with async.

Notation "x <- m ;; k" := (bind m (fun x => k))
  (at level 100, m at next level, right associativity) : async_scope.
Notation "m ;;; k" := (bind m (fun _ => k))
  (at level 100, right associativity) : async_scope.

Local Open Scope async_scope.

Definition console_log (args : list LogArg) : Async unit := update (emit (EvLog args)).

(* ===================================================================== *)
(** ** The driver *)
(* ===================================================================== *)

Module Driver.

(** [MongoClient.connect(uri, options, callback)]: the network decides what
    the callback receives as [(err, client)]. *)
Definition connect (u : string) (o : Options) : Async (option JsError * option nat) :=
  fun w =>
    let answer := match net w with
                  | [] => AnswerErr (ErrMongo "MongoNetworkError" "connection refused")
                  | a :: _ => a
                  end in
    let w1 := emit (EvConnect u answer) (set_net (tail (net w)) w) in
    match answer with
    | AnswerErr err => (Resolved (Some err, None), w1)
    | AnswerNoClient => (Resolved (None, None), w1)
    | AnswerClient => (Resolved (None, Some (clients w1)), set_clients (S (clients w1)) w1)
    end.

(** Characters a database name cannot contain. *)
Definition invalid_db_chars : list ascii := chars " .$/\".

Definition valid_db_name (name : string) : bool :=
  String.eqb name "$external"
  || negb (existsb (fun c => mem_ascii c invalid_db_chars) (chars name)).

(** [client.db(name)]: throws on an invalid name; the empty name stands for
    the client's default database. *)
Definition client_db (client : nat) (name : string) : Async Db :=
  if valid_db_name name
  then ret {| db_client := client; db_name := name |}
  else reject (ErrMongo "MongoAPIError" "database names cannot contain the character").

Definition client_close (client : nat) : Async unit :=
  update (fun w => emit (EvClose client) (set_closed ({[client]} ∪ closed w) w)).

Definition db_collection (d : Db) (name : string) : CollectionH :=
  {| coll_db := d; coll_name := name |}.

(** Every command needs the client of its handle to be open. *)
Definition with_open_client {A} (d : Db) (m : Async A) : Async A :=
  fun w =>
    if decide (db_client d ∈ closed w)
    then (Rejected (ErrMongo "MongoNotConnectedError"
                             "MongoClient must be connected to perform this operation"), w)
    else m w.

Record Cursor := {
  cur_coll : CollectionH;
  cur_filter : Filter;
  cur_projection : Projection;
  cur_sort : list (string * bool);
  cur_limit : option nat;
  cur_skip : nat
}.

(** [collection.find(query, { projection })] *)
Definition collection_find (c : CollectionH) (q : Filter) (p : option Projection) : Cursor :=
  {| cur_coll := c; cur_filter := q; cur_projection := default [] p;
     cur_sort := []; cur_limit := None; cur_skip := 0 |}.

Definition cursor_project (p : Projection) (c : Cursor) : Cursor :=
  {| cur_coll := cur_coll c; cur_filter := cur_filter c; cur_projection := p;
     cur_sort := cur_sort c; cur_limit := cur_limit c; cur_skip := cur_skip c |}.

Definition cursor_sort (s : Sort) (c : Cursor) : Cursor :=
  {| cur_coll := cur_coll c; cur_filter := cur_filter c;
     cur_projection := cur_projection c;
     cur_sort := sort_keys s; cur_limit := cur_limit c; cur_skip := cur_skip c |}.

(** A limit of 0 is the server's way of saying "no limit". *)
Definition cursor_limit (n : nat) (c : Cursor) : Cursor :=
  {| cur_coll := cur_coll c; cur_filter := cur_filter c;
     cur_projection := cur_projection c; cur_sort := cur_sort c;
     cur_limit := if (n =? 0)%nat then None else Some n;
     cur_skip := cur_skip c |}.

Definition cursor_skip (n : nat) (c : Cursor) : Cursor :=
  {| cur_coll := cur_coll c; cur_filter := cur_filter c;
     cur_projection := cur_projection c; cur_sort := cur_sort c;
     cur_limit := cur_limit c; cur_skip := n |}.

Definition take_limit (l : option nat) (docs : list Document) : list Document :=
  match l with
  | None => docs
  | Some n => take n docs
  end.

(** The documents a cursor yields from the stored ones: select, order,
    skip, limit, and narrow each to the projection. *)
Definition window (c : Cursor) (selected : list Document) : list Document :=
  map (project (cur_projection c))
      (take_limit (cur_limit c) (drop (cur_skip c) (sort_docs (cur_sort c) selected))).

(** [cursor.toArray()] *)
Definition cursor_toArray (c : Cursor) : Async (list Document) :=
  with_open_client (coll_db (cur_coll c))
    (update (emit (EvFind (coll_name (cur_coll c)) (cur_filter c))) ;;;
     if proj_valid (cur_projection c) then
       docs <- read (fun w => documents w (coll_name (cur_coll c))) ;;
       match select (cur_filter c) docs with
       | Some selected => ret (window c selected)
       | None => unmodelled
       end
     else reject (ErrMongo "MongoServerError"
                           "Cannot do exclusion on field in inclusion projection")).

Definition has_id (v : Value) (d : Document) : bool :=
  match doc_id d with
  | Some v' => Value_eqb v' v
  | None => false
  end.

(** The stored form of a document: [_id] comes first. *)
Definition with_id_first (v : Value) (d : Document) : Document :=
  ("_id", v) :: List.filter (fun e => negb (String.eqb (fst e) "_id")) d.

(** [new ObjectId()] *)
Definition fresh_ObjectId : Async ObjectId :=
  fun w => (Resolved (OID (oid_next w)), set_oid_next (N.succ (oid_next w)) w).

(** [collection.insertOne(doc, options)]: a document without [_id] gets a
    generated one; [_id] is unique within a collection. *)
Definition collection_insertOne (c : CollectionH) (d : Document) (opts : Options) : Async JsVal :=
  with_open_client (coll_db c)
    (v <- match doc_id d with
          | Some v => ret v
          | None => o <- fresh_ObjectId ;; ret (VObjectId o)
          end ;;
     update (emit (EvInsertOne (coll_name c) (with_id_first v d))) ;;;
     docs <- read (fun w => documents w (coll_name c)) ;;
     if existsb (has_id v) docs
     then reject (ErrMongo "MongoServerError" "E11000 duplicate key error")
     else
       update (fun w => set_store (<[coll_name c := docs ++ [with_id_first v d]]> (store w)) w) ;;;
       ret (JInsertOneResult v)).

(** [collection.countDocuments(query, { limit })] *)
Definition collection_countDocuments (c : CollectionH) (q : Filter) (l : option nat)
  : Async JsVal :=
  with_open_client (coll_db c)
    (update (emit (EvCount (coll_name c) q)) ;;;
     docs <- read (fun w => documents w (coll_name c)) ;;
     match select q docs with
     | Some selected =>
         ret (JNumber (Z.of_nat (List.length (take_limit l selected))))
     | None => unmodelled
     end).

(** [db.listCollections({ name }).hasNext()] *)
Definition db_hasCollection (d : Db) (name : string) : Async JsVal :=
  with_open_client d
    (update (emit (EvListCollections name)) ;;;
     s <- read store ;;
     ret (JBool (bool_decide (is_Some (s !! name))))).

(** The other commands are sent, and what they answer is not described. *)
Definition command (op : string) (c : CollectionH) : Async JsVal :=
  with_open_client (coll_db c)
    (update (emit (EvCommand op (coll_name c))) ;;; unmodelled).

(** [collection.aggregate(pipeline, options)] only builds a cursor: nothing
    is sent, and the cursor is not described. *)
Definition collection_aggregate (c : CollectionH) : Async JsVal := unmodelled.

End Driver.

(* ===================================================================== *)
(** ** [libs/mongo.ts]: the query facade *)
(* ===================================================================== *)

Module Mongo.

(** [Connect(conf)] *)
Definition Connect (conf : MongoConf) : Async JsVal :=
  d <- read DB ;;
  match d with
  | Some _ => ret JUndefined                                   (* if (DB) return; *)
  | None =>
      answer <- Driver.connect (uri conf) (options conf) ;;
      match answer with
      | (Some err, _) => reject err                            (* if (err) return reject(err); *)
      | (None, None) => reject (ErrString "client is undefined")
      | (None, Some client) =>
          update (set_clientDB (Some client)) ;;;              (* clientDB = client; *)
          d <- Driver.client_db client (db conf) ;;            (* a throw is caught and rejects *)
          update (set_DB (Some d)) ;;;                         (* DB = client.db(conf.db); *)
          ret (JBool true)                                     (* return resolve(true); *)
      end
  end.

(** [Close()] *)
Definition Close : Async JsVal :=
  c <- read clientDB ;;
  match c with
  | None => reject (ErrString "Not connected")
  | Some client => Driver.client_close client ;;; ret JUndefined
  end.

(** [Collection(collectionName)] *)
Definition Collection (collectionName : string) : Async CollectionH :=
  d <- read DB ;;
  match d with
  | None => reject (ErrString "Not connected")
  | Some d => ret (Driver.db_collection d collectionName)
  end.

(** [FindCursor(collectionName, query, projection, sort, limit, skip)];
    [projection] is [None] for [null]. *)
Definition FindCursor (collectionName : string) (query : Filter)
    (projection : option Projection) (sort : Sort) (limit : Limit) (skip : nat)
  : Async Driver.Cursor :=
  collection <- Collection collectionName ;;
  let cursor := Driver.collection_find collection query projection in
  let cursor := match projection with
                | Some p => Driver.cursor_project p cursor
                | None => cursor
                end in
  let cursor := if truthy_sort sort then Driver.cursor_sort sort cursor else cursor in
  let cursor := if truthy_limit limit
                then Driver.cursor_limit (limit_number limit) cursor
                else cursor in
  let cursor := if negb (skip =? 0)%nat then Driver.cursor_skip skip cursor else cursor in
  ret cursor.

(** [result[0]] *)
Definition first_or_undefined (result : list Document) : JsVal :=
  match result with
  | [] => JUndefined
  | d :: _ => JDoc d
  end.

(** [Find(collectionName, query, projection, sort, limit, skip)] *)
Definition Find (collectionName : string) (query : Filter)
    (projection : option Projection) (sort : Sort) (limit : Limit) (skip : nat)
  : Async JsVal :=
  cursor <- FindCursor collectionName query (Some (default [] projection)) sort limit skip ;;
  result <- Driver.cursor_toArray cursor ;;
  ret (if strict_eq_true limit then first_or_undefined result else JDocs result).

(** The default values of the optional parameters of [Find]. *)
Definition default_sort : Sort := SortKeys [].
Definition default_limit : Limit := LimBool false.
Definition default_skip : nat := 0.

(** [Distinct(collectionName, field, query, options)] *)
Definition Distinct (collectionName field : string) (query : Filter) (o : Options)
  : Async JsVal :=
  collection <- Collection collectionName ;;
  Driver.command "distinct" collection.

(** [CollectionExist(collectionName)]: reads [DB] without a guard, so an
    unset [DB] is a property access on [undefined]. *)
Definition CollectionExist (collectionName : string) : Async JsVal :=
  d <- read DB ;;
  match d with
  | None => reject (ErrType "Cannot read properties of undefined (reading 'listCollections')")
  | Some d => Driver.db_hasCollection d collectionName
  end.

(** [InsertOne(collectionName, document, options)] *)
Definition InsertOne (collectionName : string) (document : Document) (o : option Options)
  : Async JsVal :=
  let o := default [] o in                                     (* if (!options) options = {} *)
  collection <- Collection collectionName ;;
  Driver.collection_insertOne collection document o.

(** [InsertMany(collectionName, documents, options)] *)
Definition InsertMany (collectionName : string) (docs : list Document) (o : Options)
  : Async JsVal :=
  collection <- Collection collectionName ;;
  Driver.command "insertMany" collection.

(** [DeleteOne(collectionName, query, options)] *)
Definition DeleteOne (collectionName : string) (query : Filter) (o : option Options)
  : Async JsVal :=
  collection <- Collection collectionName ;;
  Driver.command "deleteOne" collection.

(** [DeleteMany(collectionName, query, options)] *)
Definition DeleteMany (collectionName : string) (query : Filter) (o : option Options)
  : Async JsVal :=
  collection <- Collection collectionName ;;
  Driver.command "deleteMany" collection.

(** [UpdateOne(collectionName, query, update, options)] *)
Definition UpdateOne (collectionName : string) (query : Filter) (upd : Document)
    (o : option Options) : Async JsVal :=
  collection <- Collection collectionName ;;
  Driver.command "updateOne" collection.

(** [UpdateMany(collectionName, query, update, options)] *)
Definition UpdateMany (collectionName : string) (query : Filter) (upd : Document)
    (o : option Options) : Async JsVal :=
  collection <- Collection collectionName ;;
  Driver.command "updateMany" collection.

(** [Count(collectionName, query, limit)] *)
Definition Count (collectionName : string) (query : Filter) (limit : Limit) : Async JsVal :=
  collection <- Collection collectionName ;;
  if truthy_limit limit
  then Driver.collection_countDocuments collection query (Some (limit_number limit))
  else Driver.collection_countDocuments collection query None.

(** [Aggregate(collectionName, query_aggregate, options)] *)
Definition Aggregate (collectionName : string) (query_aggregate : list Document) (o : Options)
  : Async JsVal :=
  collection <- Collection collectionName ;;
  Driver.command "aggregate" collection.

(** [Aggregate_cursor(collectionName, query_aggregate, options)] *)
Definition Aggregate_cursor (collectionName : string) (query_aggregate : list Document)
    (o : Options) : Async JsVal :=
  collection <- Collection collectionName ;;
  Driver.collection_aggregate collection.

(** [CreateIndex(collectionName, indexData)] *)
Definition CreateIndex (collectionName : string) (indexData : list (string * bool))
  : Async JsVal :=
  collection <- Collection collectionName ;;
  Driver.command "createIndex" collection.

(** [Stats(collectionName)] *)
Definition Stats (collectionName : string) : Async JsVal :=
  collection <- Collection collectionName ;;
  Driver.command "collStats" collection.

End Mongo.

(* ===================================================================== *)
(** ** The entry file: route handlers *)
(* ===================================================================== *)

(** What a route sends back. No handler sets a status, so [response.send]
    answers with the framework's default, 200. *)
Record Response := { status : nat; body : JsVal }.

Definition response_send (v : JsVal) : Response := {| status := 200; body := v |}.

Section Server.

(** [import config from './config']: the file is not part of the sources
    at hand, the handlers are stated for any configuration. *)
Variable config : MongoConf.

(** [new ObjectId(movieId)] *)
Definition ObjectId_new (s : string) : Async ObjectId :=
  match ObjectId_parse s with
  | Some o => ret o
  | None => reject (ErrBSON "Argument passed in must be a string of 12 bytes or a string of 24 hex characters")
  end.

(** [new Date()] *)
Definition Date_new : Async Z := read clock.

(** [respuesta[0]] on what [Find] returned. *)
Definition index0 (v : JsVal) : Async JsVal :=
  match v with
  | JDocs l => ret (Mongo.first_or_undefined l)
  | JUndefined => reject (ErrType "Cannot read properties of undefined (reading '0')")
  | _ => unmodelled
  end.

(** [obtenerPeliculasPorTitulo(title)] *)
Definition obtenerPeliculasPorTitulo (title : string) : Async JsVal :=
  let query := FRegex "title" title "$i" in
  try_catch (Mongo.Connect config ;;; ret tt)
            (fun error => console_log [LText "Error conectando a base de datos: "; LErr error]) ;;;
  let projection := [("title", true); ("_id", true)] in
  respuesta <- Mongo.Find "movies" query (Some projection)
                 Mongo.default_sort Mongo.default_limit Mongo.default_skip ;;
  ret respuesta.

(** [app.get("/getMoviesByTitle", ...)]: the result is what [response.send]
    receives; [title] is [None] when the query string has no such key. *)
Definition getMoviesByTitle (title : option string) : Async Response :=
  respuesta <- match title with
               | Some t =>
                   if truthy_string t then obtenerPeliculasPorTitulo t
                   else ret (JString "Error")
               | None => ret (JString "Error")
               end ;;
  console_log [LVal respuesta] ;;;
  ret (response_send respuesta).

(** [obtenerDetalle(movieId)] *)
Definition obtenerDetalle (movieId : string) : Async JsVal :=
  try_catch (Mongo.Connect config ;;; ret tt)
            (fun error => console_log [LText "Error conectando a base de datos: "; LErr error]) ;;;
  o <- ObjectId_new movieId ;;
  let query := FEq "_id" (VObjectId o) in
  let projection := [("title", true); ("year", true); ("directors", true); ("plot", true)] in
  respuesta <- Mongo.Find "movies" query (Some projection)
                 Mongo.default_sort Mongo.default_limit Mongo.default_skip ;;
  index0 respuesta.

(** [app.get("/details", ...)] *)
Definition details (movieId : string) : Async Response :=
  respuesta <- obtenerDetalle movieId ;;
  console_log [LVal respuesta] ;;;
  ret (response_send respuesta).

(** [obtenerComentarios(movieId)] *)
Definition obtenerComentarios (movieId : string) : Async JsVal :=
  try_catch (Mongo.Connect config ;;; ret tt)
            (fun error => console_log [LText "Error conectandose a la base de datos: "; LErr error]) ;;;
  o <- ObjectId_new movieId ;;
  let query := FEq "movie_id" (VObjectId o) in
  console_log [LText "La sentencia es: "; LQuery query] ;;;
  let projection := [("name", true); ("email", true); ("text", true); ("date", true)] in
  respuesta <- Mongo.Find "comments" query (Some projection)
                 Mongo.default_sort Mongo.default_limit Mongo.default_skip ;;
  ret respuesta.

(** [app.get("/comments", ...)] *)
Definition comments (movieId : string) : Async Response :=
  respuesta <- obtenerComentarios movieId ;;
  console_log [LText "Los comentarios son (server)"; LVal respuesta] ;;;
  ret (response_send respuesta).

(** [insertarComentarios(nameLlega, emailLlega, movieId, textLlega)] *)
Definition insertarComentarios (nameLlega emailLlega movieId textLlega : string)
  : Async JsVal :=
  console_log [LText "Entra por insertarComentarios"] ;;;
  try_catch (Mongo.Connect config ;;; ret tt)
            (fun error => console_log [LText "Error de conexión a la base de datos: "; LErr error]) ;;;
  id <- Driver.fresh_ObjectId ;;
  movie <- ObjectId_new movieId ;;
  date <- Date_new ;;
  let comentario :=
    [("_id", VObjectId id); ("name", VString nameLlega); ("email", VString emailLlega);
     ("movie_id", VObjectId movie); ("text", VString textLlega); ("date", VDate date)] in
  respuesta <- Mongo.InsertOne "comments" comentario None ;;
  ret respuesta.

(** [app.post("/addComment", ...)] *)
Definition addComment (name email movieId text : string) : Async Response :=
  respuesta <- insertarComentarios name email movieId text ;;
  ret (response_send respuesta).

End Server.

(* ===================================================================== *)
(** ** Notions used to state the properties *)
(* ===================================================================== *)

(** A connection is usable: the module holds a database handle whose
    client has not been closed. *)
Definition usable (w : World) : Prop :=
  exists d, DB w = Some d /\ db_client d ∉ closed w.

(** [s] contains [t], letter case ignored. *)
Definition contains_ci (t s : string) : Prop :=
  exists pre post, lower (chars s) = pre ++ lower (chars t) ++ post.

(** The [title] field of [d] contains [t], letter case ignored. *)
Definition title_contains_ci (t : string) (d : Document) : Prop :=
  match doc_get "title" d with
  | Some (VString s) => contains_ci t s
  | Some (VStrings l) => Exists (contains_ci t) l
  | _ => False
  end.

(** A document cut down to the fields named. *)
Definition only_fields (names : list string) (d : Document) : Document :=
  List.filter (fun e => existsb (String.eqb (fst e)) names) d.

(** Title search as substring search: the answer is a sequence holding
    exactly the movies whose title contains [t], each cut down to its id
    and title. *)
Definition title_search_is_substring_search (config : MongoConf) (t : string) (w : World)
  : Prop :=
  exists result w',
    obtenerPeliculasPorTitulo config t w = (Resolved (JDocs result), w')
    /\ forall r, In r result <->
                 exists d, In d (documents w "movies")
                           /\ title_contains_ci t d
                           /\ r = only_fields ["_id"; "title"] d.

(** The movie with identifier [o], if there is one. *)
Definition has_oid (f : string) (o : ObjectId) (d : Document) : bool :=
  match doc_get f d with
  | Some (VObjectId o') => ObjectId_eqb o' o
  | _ => false
  end.

Definition movie_with_id (o : ObjectId) (w : World) : option Document :=
  List.find (has_oid "_id" o) (documents w "movies").

(** Movie details as the four projected fields alone. *)
Definition details_are_four_fields (config : MongoConf) (movieId : string) (w : World)
  : Prop :=
  forall o, ObjectId_parse movieId = Some o ->
    exists w',
      obtenerDetalle config movieId w
      = (Resolved match movie_with_id o w with
                  | Some d => JDoc (only_fields ["title"; "year"; "directors"; "plot"] d)
                  | None => JUndefined
                  end, w').

(** Comments of a movie as name, email, text and date alone. *)
Definition comments_are_four_fields (config : MongoConf) (movieId : string) (w : World)
  : Prop :=
  forall o, ObjectId_parse movieId = Some o ->
    exists result w',
      obtenerComentarios config movieId w = (Resolved (JDocs result), w')
      /\ forall r, In r result <->
                   exists d, In d (documents w "comments")
                             /\ has_oid "movie_id" o d = true
                             /\ r = only_fields ["name"; "email"; "text"; "date"] d.

(** The window [Find] is asked for: order, skip, then the limit, where a
    falsy limit ([false], 0) means no limit. *)
Definition ordered (s : Sort) (docs : list Document) : list Document :=
  if truthy_sort s then sort_docs (sort_keys s) docs else docs.

Definition up_to (l : Limit) (docs : list Document) : list Document :=
  match l with
  | LimBool true => take 1 docs
  | LimBool false => docs
  | LimNum 0 => docs
  | LimNum n => take n docs
  end.

Definition matching_window (p : Projection) (s : Sort) (l : Limit) (skip : nat)
    (selected : list Document) : list Document :=
  map (project p) (up_to l (drop skip (ordered s selected))).

(** Connection attempts made so far ([clients] counts the clients they
    produced). *)
Definition is_connect (e : Event) : bool :=
  match e with EvConnect _ _ => true | _ => false end.

Definition connect_calls (w : World) : nat :=
  List.length (List.filter is_connect (trace w)).

(** Commands and connection attempts, as opposed to console output. *)
Definition is_driver_call (e : Event) : bool :=
  match e with EvLog _ => false | _ => true end.

(** Every exported function of [libs/mongo.ts], as a call. *)
Inductive Call :=
| CallConnect (conf : MongoConf)
| CallClose
| CallCollection (c : string)
| CallFind (c : string) (q : Filter) (p : option Projection) (s : Sort) (l : Limit) (skip : nat)
| CallDistinct (c f : string) (q : Filter) (o : Options)
| CallFindCursor (c : string) (q : Filter) (p : option Projection) (s : Sort) (l : Limit) (skip : nat)
| CallCollectionExist (c : string)
| CallInsertOne (c : string) (d : Document) (o : option Options)
| CallInsertMany (c : string) (ds : list Document) (o : Options)
| CallDeleteOne (c : string) (q : Filter) (o : option Options)
| CallDeleteMany (c : string) (q : Filter) (o : option Options)
| CallUpdateOne (c : string) (q : Filter) (u : Document) (o : option Options)
| CallUpdateMany (c : string) (q : Filter) (u : Document) (o : option Options)
| CallCount (c : string) (q : Filter) (l : Limit)
| CallAggregate (c : string) (pipeline : list Document) (o : Options)
| CallAggregate_cursor (c : string) (pipeline : list Document) (o : Options)
| CallCreateIndex (c : string) (i : list (string * bool))
| CallStats (c : string).

Definition discard {A} (m : Async A) : Async unit :=
  fun w => match m w with
           | (Resolved _, w') => (Resolved tt, w')
           | (Rejected e, w') => (Rejected e, w')
           | (Unmodelled, w') => (Unmodelled, w')
           end.

Definition run (c : Call) : Async unit :=
  match c with
  | CallConnect conf => discard (Mongo.Connect conf)
  | CallClose => discard Mongo.Close
  | CallCollection c => discard (Mongo.Collection c)
  | CallFind c q p s l k => discard (Mongo.Find c q p s l k)
  | CallDistinct c f q o => discard (Mongo.Distinct c f q o)
  | CallFindCursor c q p s l k => discard (Mongo.FindCursor c q p s l k)
  | CallCollectionExist c => discard (Mongo.CollectionExist c)
  | CallInsertOne c d o => discard (Mongo.InsertOne c d o)
  | CallInsertMany c ds o => discard (Mongo.InsertMany c ds o)
  | CallDeleteOne c q o => discard (Mongo.DeleteOne c q o)
  | CallDeleteMany c q o => discard (Mongo.DeleteMany c q o)
  | CallUpdateOne c q u o => discard (Mongo.UpdateOne c q u o)
  | CallUpdateMany c q u o => discard (Mongo.UpdateMany c q u o)
  | CallCount c q l => discard (Mongo.Count c q l)
  | CallAggregate c p o => discard (Mongo.Aggregate c p o)
  | CallAggregate_cursor c p o => discard (Mongo.Aggregate_cursor c p o)
  | CallCreateIndex c i => discard (Mongo.CreateIndex c i)
  | CallStats c => discard (Mongo.Stats c)
  end.

(** The world after a sequence of calls, whatever each of them answered. *)
Definition run_all (cs : list Call) (w : World) : World :=
  fold_left (fun w c => snd (run c w)) cs w.

(** The generic document-set operations, the ones that take a collection. *)
Definition document_set_operation (c : Call) : bool :=
  match c with
  | CallConnect _ | CallClose | CallCollection _ | CallFindCursor _ _ _ _ _ _ => false
  | _ => true
  end.

(** Sample data. *)
Module Sample.

Definition conf : MongoConf :=
  {| uri := "mongodb://localhost:27017"; db := "sample_mflix"; options := [] |}.

Definition up : Document :=
  [("_id", VObjectId (OID 1)); ("title", VString "Up"); ("year", VNumber 2009);
   ("directors", VStrings ["Pete Docter"]); ("plot", VString "A house and balloons")].

Definition matrix : Document :=
  [("_id", VObjectId (OID 2)); ("title", VString "The Matrix"); ("year", VNumber 1999);
   ("directors", VStrings ["Lana Wachowski"; "Lilly Wachowski"]);
   ("plot", VString "A hacker learns the truth")].

Definition ana : Document :=
  [("_id", VObjectId (OID 16)); ("name", VString "Ana"); ("email", VString "ana@x.com");
   ("movie_id", VObjectId (OID 1)); ("text", VString "great film"); ("date", VDate 1000)].

Definition up_id : string := "000000000000000000000001".

Definition contents : gmap string (list Document) :=
  <["movies" := [up; matrix]]> (<["comments" := [ana]]> ∅).

(** Before the first [Connect]: the server answers the next attempts. *)
Definition fresh : World :=
  {| DB := None; clientDB := None; net := [AnswerClient; AnswerClient]; clients := 0;
     closed := ∅; store := contents; oid_next := 256; clock := 2000; trace := [] |}.

(** After a successful [Connect]. *)
Definition connected : World := snd (Mongo.Connect conf fresh).

(** A configuration whose database name the driver refuses. *)
Definition dotted_conf : MongoConf :=
  {| uri := "mongodb://localhost:27017"; db := "sample.mflix"; options := [] |}.

(** The server cannot be reached. *)
Definition offline : World :=
  {| DB := None; clientDB := None; net := []; clients := 0;
     closed := ∅; store := contents; oid_next := 256; clock := 2000; trace := [] |}.

End Sample.

(** The cursor [FindCursor] hands back when the handle [d] is set. *)
Definition find_cursor (d : Db) (coll : string) (q : Filter) (p : Projection)
    (s : Sort) (limit : Limit) (skip : nat) : Driver.Cursor :=
  let cursor := Driver.cursor_project p
                  (Driver.collection_find (Driver.db_collection d coll) q (Some p)) in
  let cursor := if truthy_sort s then Driver.cursor_sort s cursor else cursor in
  let cursor := if truthy_limit limit
                then Driver.cursor_limit (limit_number limit) cursor else cursor in
  if negb (skip =? 0)%nat then Driver.cursor_skip skip cursor else cursor.

(** The option string the title search passes. *)
Definition ci_flags : RxFlags := rx_flags "$i".

(** Decision procedure for [title_contains_ci]. *)
Definition title_matchb (t : string) (d : Document) : bool :=
  match doc_get "title" d with
  | Some (VString s) => rx_search ci_flags (map RxLit (chars t)) (chars s)
  | Some (VStrings l) =>
      existsb (fun s => rx_search ci_flags (map RxLit (chars t)) (chars s)) l
  | _ => false
  end.

(** The projections of [obtenerDetalle] and [obtenerComentarios]. *)
Definition details_projection : Projection :=
  [("title", true); ("year", true); ("directors", true); ("plot", true)].

Definition comments_projection : Projection :=
  [("name", true); ("email", true); ("text", true); ("date", true)].

(** The comment [insertarComentarios] builds. *)
Definition comentario (id movie : ObjectId) (name email text : string) (date : Z) : Document :=
  [("_id", VObjectId id); ("name", VString name); ("email", VString email);
   ("movie_id", VObjectId movie); ("text", VString text); ("date", VDate date)].

(** The world [insertarComentarios] leaves when the insertion succeeds. *)
Definition after_insert (c : Document) (w : World) : World :=
  let w1 := emit (EvLog [LText "Entra por insertarComentarios"]) w in
  let w2 := set_oid_next (N.succ (oid_next w)) w1 in
  let w3 := emit (EvInsertOne "comments" c) w2 in
  set_store (<["comments" := documents w "comments" ++ [c]]> (store w)) w3.

(** The world after a handler has caught and logged a connection error. *)
Definition connect_error_logged (msg : string) (e : JsError) (w : World) : World :=
  emit (EvLog [LText msg; LErr e]) w.

(** [w'] has the connection state of [w]: same handles, same number of
    clients and of connection attempts, and no client reopened. *)
Record connection_kept (w w' : World) : Prop := {
  kept_DB : DB w' = DB w;
  kept_clientDB : clientDB w' = clientDB w;
  kept_clients : clients w' = clients w;
  kept_net : net w' = net w;
  kept_closed : closed w ⊆ closed w';
  kept_calls : connect_calls w' = connect_calls w
}.

Definition KeepsConnection {A} (m : Async A) : Prop :=
  forall w, connection_kept w (snd (m w)).

(* ===================================================================== *)
(** ** Further notions: requests, start-up, and what a computation keeps *)
(* ===================================================================== *)

(** The four routes, as requests. *)
Inductive Request :=
| GetMoviesByTitle (title : option string)
| GetDetails (movieId : string)
| GetComments (movieId : string)
| PostAddComment (name email movieId text : string).

Definition serve (config : MongoConf) (r : Request) : Async Response :=
  match r with
  | GetMoviesByTitle title => getMoviesByTitle config title
  | GetDetails movieId => details config movieId
  | GetComments movieId => comments config movieId
  | PostAddComment name email movieId text => addComment config name email movieId text
  end.

(** The world after a sequence of requests, whatever each was answered. *)
Definition serve_all (config : MongoConf) (rs : list Request) (w : World) : World :=
  fold_left (fun w r => snd (serve config r w)) rs w.

(** [const port = 3000] *)
Definition port : nat := 3000.

(** [mongo.Connect(config.mongo).then(() => app.listen(port, ...))]: the
    computation resolves with the port once the server listens; the callback
    of [then] does not run when [Connect] rejects. *)
Definition startup (config : MongoConf) : Async nat :=
  Mongo.Connect config ;;;
  console_log [LText "Rest levantado en http://127.0.0.1:3000/"] ;;;
  ret port.

(** [m] takes every world to one related to it by [R]. *)
Definition Preserves (R : relation World) {A} (m : Async A) : Prop :=
  forall w, R w (snd (m w)).

(** Commands sent to the server, as opposed to connecting, closing and
    console output. *)
Definition is_command (e : Event) : bool :=
  match e with
  | EvFind _ _ | EvInsertOne _ _ | EvCount _ _ | EvListCollections _ | EvCommand _ _ => true
  | _ => false
  end.

Definition commands (w : World) : list Event := List.filter is_command (trace w).

(** The database is as it was. *)
Definition store_kept : relation World := fun w w' => store w' = store w.

(** The database is as it was and nothing was asked of the server. *)
Definition silent : relation World :=
  fun w w' => store w' = store w /\ commands w' = commands w.

(** Every collection but [c] is as it was, and [c] only grew at its end. *)
Definition only_appends (c : string) : relation World :=
  fun w w' =>
    (forall c', c' <> c -> documents w' c' = documents w c')
    /\ exists added, documents w' c = documents w c ++ added.

(** Handles, clients and connection attempts are as they were. *)
Definition handles_kept : relation World :=
  fun w w' =>
    DB w' = DB w /\ clientDB w' = clientDB w /\ closed w' = closed w
    /\ clients w' = clients w /\ connect_calls w' = connect_calls w.

(** The client the module would close is the one its handle uses. *)
Definition coherent (w : World) : Prop :=
  forall d, DB w = Some d -> clientDB w = Some (db_client d).

(** Numbers of documents a query window holds. *)
Definition window_size (l : Limit) (skip n : nat) : nat :=
  match l with
  | LimBool true => Nat.min 1 (n - skip)
  | LimBool false => n - skip
  | LimNum 0 => n - skip
  | LimNum k => Nat.min k (n - skip)
  end.

(** The same, required only of worlds that hold a database handle. *)
Definition connected_handles_kept : relation World :=
  fun w w' => is_Some (DB w) -> handles_kept w w'.

(** The identifiers of the stored comments were all generated earlier: each
    is below the one the generator yields next. This is what makes a
    generated identifier new to the collection. *)
Definition generator_ahead (w : World) : Prop :=
  forall d o, In d (documents w "comments") -> doc_id d = Some (VObjectId o) ->
              (oid_value o < oid_next w)%N.

(** The database and the identifier generator are as they were. *)
Definition data_kept : relation World :=
  fun w w' => store w' = store w /\ oid_next w' = oid_next w.

(** The generator stays ahead if it was. *)
Definition ahead_kept : relation World :=
  fun w w' => generator_ahead w -> generator_ahead w'.


(* ===================================================================== *)
(** ** The model on small inputs *)
(* ===================================================================== *)

Example regex_dot : regex_test "." "$i" "Up" = Some true.
Proof. reflexivity. Qed.

Example regex_ci : regex_test "mat" "$i" "The Matrix" = Some true.
Proof. reflexivity. Qed.

Example parse_24 : ObjectId_parse "573a1390f29313caabcd4135" <> None.
Proof. vm_compute. discriminate. Qed.

Example parse_12 : ObjectId_parse "abcdefghijkl" <> None.
Proof. vm_compute. discriminate. Qed.

Example parse_short : ObjectId_parse "not-an-id" = None.
Proof. reflexivity. Qed.

Example project_incl :
  project [("title", true); ("year", true)]
          [("_id", VObjectId (OID 7)); ("title", VString "Up"); ("cast", VStrings [])]
  = [("_id", VObjectId (OID 7)); ("title", VString "Up")].
Proof. reflexivity. Qed.

(* ===================================================================== *)
(** ** Running a computation step by step *)
(* ===================================================================== *)

Lemma bind_resolved {A B} (m : Async A) (k : A -> Async B) w a w' :
  m w = (Resolved a, w') -> bind m k w = k a w'.
Proof. intros H. unfold bind. rewrite H. reflexivity. Qed.

Lemma bind_rejected {A B} (m : Async A) (k : A -> Async B) w e w' :
  m w = (Rejected e, w') -> bind m k w = (Rejected e, w').
Proof. intros H. unfold bind. rewrite H. reflexivity. Qed.

Lemma bind_ret {A} (m : Async A) w : bind m (fun a => ret a) w = m w.
Proof. unfold bind, ret. destruct (m w) as [[a|e|] w']; reflexivity. Qed.

Lemma bind_update {B} f (k : unit -> Async B) w : bind (update f) k w = k tt (f w).
Proof. reflexivity. Qed.

Lemma bind_read {A B} (f : World -> A) (k : A -> Async B) w :
  bind (read f) k w = k (f w) w.
Proof. reflexivity. Qed.

Lemma bind_fresh_ObjectId {B} (k : ObjectId -> Async B) w :
  bind Driver.fresh_ObjectId k w
  = k (OID (oid_next w)) (set_oid_next (N.succ (oid_next w)) w).
Proof. reflexivity. Qed.

(* ===================================================================== *)
(** ** The connection manager *)
(* ===================================================================== *)

Lemma Connect_connected conf w d :
  DB w = Some d -> Mongo.Connect conf w = (Resolved JUndefined, w).
Proof. intros H. unfold Mongo.Connect, bind, read. rewrite H. reflexivity. Qed.

(** Without a handle, [Connect] makes exactly one attempt; it either fails
    and leaves the handle unset, or sets both module variables. *)
Lemma Connect_cases conf w :
  DB w = None ->
  (exists e w1, Mongo.Connect conf w = (Rejected e, w1) /\ DB w1 = None
                /\ connect_calls w1 = S (connect_calls w))
  \/ (exists d w1, Mongo.Connect conf w = (Resolved (JBool true), w1) /\ DB w1 = Some d
                   /\ connect_calls w1 = S (connect_calls w)
                   /\ clients w1 = S (clients w)
                   /\ clientDB w1 = Some (db_client d)).
Proof.
  intros H. unfold Mongo.Connect, bind, read. rewrite H.
  unfold Driver.connect, connect_calls.
  destruct (net w) as [|[err| |] rest]; cbn.
  1-3: left; eexists _, _; split; [reflexivity|]; cbn;
       rewrite List.filter_app, List.length_app; cbn; split; [assumption|lia].
  unfold Driver.client_db. destruct (Driver.valid_db_name (db conf)); cbn.
  - right. eexists _, _. split; [reflexivity|]. cbn.
    rewrite List.filter_app, List.length_app; cbn. repeat split; lia.
  - left. eexists _, _. split; [reflexivity|]. cbn.
    rewrite List.filter_app, List.length_app; cbn. split; [assumption|lia].
Qed.


Lemma Connect_established conf w w1 :
  Mongo.Connect conf w = (Resolved (JBool true), w1) ->
  exists d, DB w1 = Some d /\ clientDB w1 = Some (db_client d).
Proof.
  intros H. destruct (DB w) as [d0|] eqn:E.
  - rewrite (Connect_connected conf w d0 E) in H. discriminate.
  - destruct (Connect_cases conf w E) as [(e & w' & H' & _)|(d & w' & H' & Hd & _ & _ & Hc)];
      rewrite H' in H; inversion H; subst. eauto.
Qed.

(** A call that fails leaves the handle unset, so the next call tries
    again: here the client is created and the database name then refused,
    twice. *)
Example Connect_retries_after_failure :
  let w1 := snd (Mongo.Connect Sample.dotted_conf Sample.fresh) in
  let w2 := snd (Mongo.Connect Sample.dotted_conf w1) in
  DB w2 = None /\ connect_calls w2 = 2%nat /\ clients w2 = 2%nat.
Proof. repeat split; reflexivity. Qed.

(** C8. Calling [Connect] twice in a row: once the first call has left a
    connection active, the second call returns at once without touching the
    world, so the pair makes at most one connection attempt and creates at
    most one client (none when a connection was active from the start). *)
Theorem Connect_twice_connects_once conf w r1 w1 d :
  Mongo.Connect conf w = (r1, w1) ->
  DB w1 = Some d ->
  Mongo.Connect conf w1 = (Resolved JUndefined, w1)
  /\ connect_calls (snd (Mongo.Connect conf w1))
     = (connect_calls w + match DB w with Some _ => 0 | None => 1 end)%nat
  /\ clients (snd (Mongo.Connect conf w1)) = (clients w + match DB w with Some _ => 0 | None => 1 end)%nat.
Proof.
  intros H Hd. rewrite (Connect_connected conf w1 d Hd). cbn [snd].
  split; [reflexivity|].
  destruct (DB w) as [d0|] eqn:E.
  - rewrite (Connect_connected conf w d0 E) in H. inversion H; subst. lia.
  - destruct (Connect_cases conf w E)
      as [(e & w' & H' & Hn & _)|(d' & w' & H' & _ & Hc & Hn & _)];
      rewrite H' in H; inversion H; subst; [congruence|lia].
Qed.

Lemma Connect_twice_connects_once_witness :
  Mongo.Connect Sample.conf Sample.connected = (Resolved JUndefined, Sample.connected)
  /\ connect_calls (snd (Mongo.Connect Sample.conf Sample.connected)) = 1%nat
  /\ clients (snd (Mongo.Connect Sample.conf Sample.connected)) = 1%nat.
Proof.
  exact (Connect_twice_connects_once Sample.conf Sample.fresh (Resolved (JBool true))
           Sample.connected {| db_client := 0; db_name := "sample_mflix" |}
           eq_refl eq_refl).
Defined.

(* ===================================================================== *)
(** ** What leaves the connection state alone *)
(* ===================================================================== *)

Lemma connection_kept_refl w : connection_kept w w.
Proof. split; reflexivity || set_solver. Qed.

Lemma connection_kept_trans w1 w2 w3 :
  connection_kept w1 w2 -> connection_kept w2 w3 -> connection_kept w1 w3.
Proof. intros [] []. split; try congruence. set_solver. Qed.

Lemma connection_kept_emit e w : is_connect e = false -> connection_kept w (emit e w).
Proof.
  intros H. split; try reflexivity.
  unfold connect_calls. cbn. rewrite List.filter_app, List.length_app. cbn.
  rewrite H. cbn. lia.
Qed.

Lemma Keeps_ret {A} (a : A) : KeepsConnection (ret a).
Proof. intros w. apply connection_kept_refl. Qed.

Lemma Keeps_reject {A} e : KeepsConnection (@reject A e).
Proof. intros w. apply connection_kept_refl. Qed.

Lemma Keeps_unmodelled {A} : KeepsConnection (@unmodelled A).
Proof. intros w. apply connection_kept_refl. Qed.

Lemma Keeps_read {A} (f : World -> A) : KeepsConnection (read f).
Proof. intros w. apply connection_kept_refl. Qed.

Lemma Keeps_bind {A B} (m : Async A) (k : A -> Async B) :
  KeepsConnection m -> (forall a, KeepsConnection (k a)) -> KeepsConnection (bind m k).
Proof.
  intros Hm Hk w. unfold bind. specialize (Hm w).
  destruct (m w) as [[a|e|] w']; cbn in *; try assumption.
  eapply connection_kept_trans; [exact Hm | apply Hk].
Qed.

Lemma Keeps_discard {A} (m : Async A) : KeepsConnection m -> KeepsConnection (discard m).
Proof.
  intros Hm w. unfold discard. specialize (Hm w).
  destruct (m w) as [[a|e|] w']; assumption.
Qed.

Lemma Keeps_with_open_client {A} d (m : Async A) :
  KeepsConnection m -> KeepsConnection (Driver.with_open_client d m).
Proof.
  intros Hm w. unfold Driver.with_open_client.
  destruct (decide _); [apply connection_kept_refl | apply Hm].
Qed.

Lemma Keeps_emit e : is_connect e = false -> KeepsConnection (update (emit e)).
Proof. intros H w. now apply connection_kept_emit. Qed.

Lemma Keeps_if {A} (b : bool) (m1 m2 : Async A) :
  KeepsConnection m1 -> KeepsConnection m2 -> KeepsConnection (if b then m1 else m2).
Proof. destruct b; auto. Qed.

Lemma Keeps_set_store f : KeepsConnection (update (fun w => set_store (f w) w)).
Proof. intros w. split; reflexivity || set_solver. Qed.

Lemma Keeps_fresh_ObjectId : KeepsConnection Driver.fresh_ObjectId.
Proof. intros w. split; reflexivity || set_solver. Qed.

Lemma Keeps_client_close c : KeepsConnection (Driver.client_close c).
Proof.
  intros w. split; try reflexivity.
  - cbn. set_solver.
  - unfold connect_calls. cbn. rewrite List.filter_app, List.length_app. cbn. lia.
Qed.

Create HintDb connection discriminated.

#[local] Hint Resolve Keeps_ret Keeps_reject Keeps_unmodelled Keeps_read Keeps_emit
  Keeps_set_store Keeps_fresh_ObjectId Keeps_client_close : connection.

(** Walks through a computation built from the combinators above. *)
Ltac keeps_connection :=
  repeat first
    [ progress intros
    | apply Keeps_discard
    | apply Keeps_bind
    | apply Keeps_with_open_client
    | apply Keeps_if
    | match goal with
      | |- KeepsConnection (match ?x with _ => _ end) => destruct x
      end
    | solve [ auto with connection ] ].

Lemma Keeps_Collection c : KeepsConnection (Mongo.Collection c).
Proof. unfold Mongo.Collection. keeps_connection. Qed.

Lemma Keeps_toArray c : KeepsConnection (Driver.cursor_toArray c).
Proof. unfold Driver.cursor_toArray. keeps_connection. Qed.

Lemma Keeps_insertOne c d o : KeepsConnection (Driver.collection_insertOne c d o).
Proof. unfold Driver.collection_insertOne. keeps_connection. Qed.

Lemma Keeps_countDocuments c q l : KeepsConnection (Driver.collection_countDocuments c q l).
Proof. unfold Driver.collection_countDocuments. keeps_connection. Qed.

Lemma Keeps_command op c : KeepsConnection (Driver.command op c).
Proof. unfold Driver.command. keeps_connection. Qed.

Lemma Keeps_hasCollection d n : KeepsConnection (Driver.db_hasCollection d n).
Proof. unfold Driver.db_hasCollection. keeps_connection. Qed.

#[local] Hint Resolve Keeps_Collection Keeps_toArray Keeps_insertOne Keeps_countDocuments
  Keeps_command Keeps_hasCollection : connection.

(** Every exported function other than [Connect] keeps the connection
    state; [Close] only adds to the closed clients. *)
Lemma Keeps_run c : (forall conf, c <> CallConnect conf) -> KeepsConnection (run c).
Proof.
  intros H. destruct c; cbn [run]; try (exfalso; eapply H; reflexivity).
  all: unfold Mongo.Close, Mongo.Find, Mongo.FindCursor, Mongo.Distinct, Mongo.CollectionExist,
    Mongo.InsertOne, Mongo.InsertMany, Mongo.DeleteOne, Mongo.DeleteMany, Mongo.UpdateOne,
    Mongo.UpdateMany, Mongo.Count, Mongo.Aggregate, Mongo.Aggregate_cursor, Mongo.CreateIndex,
    Mongo.Stats, Driver.collection_aggregate.
  all: keeps_connection.
Qed.

Lemma run_keeps c w d : DB w = Some d -> connection_kept w (snd (run c w)).
Proof.
  intros H. destruct c; try (apply Keeps_run; discriminate).
  cbn [run]. unfold discard. rewrite (Connect_connected conf w d H).
  apply connection_kept_refl.
Qed.

Lemma run_all_keeps cs : forall w d, DB w = Some d -> connection_kept w (run_all cs w).
Proof.
  induction cs as [|c cs IH]; intros w d H; cbn.
  - apply connection_kept_refl.
  - pose proof (run_keeps c w d H) as Hs.
    eapply connection_kept_trans; [exact Hs|].
    apply (IH _ d). rewrite (kept_DB _ _ Hs). exact H.
Qed.

(** C10. Once [Connect] has established a connection, no exported function
    of the module clears the database handle, whatever sequence of calls
    follows. In particular [Close] closes the client and leaves the handle:
    after it, and after any further calls, the handle is the one set by the
    first [Connect], its client is closed, every [Connect] returns at once,
    and no new connection attempt is made and no new client created. *)
Theorem handle_survives_close conf conf' w w1 cs :
  Mongo.Connect conf w = (Resolved (JBool true), w1) ->
  (exists d, DB w1 = Some d /\ DB (run_all cs w1) = Some d)
  /\ let w3 := run_all cs (snd (Mongo.Close w1)) in
     fst (Mongo.Close w1) = Resolved JUndefined
     /\ (exists d, DB w1 = Some d /\ DB w3 = Some d /\ db_client d ∈ closed w3)
     /\ Mongo.Connect conf' w3 = (Resolved JUndefined, w3)
     /\ connect_calls w3 = connect_calls w1
     /\ clients w3 = clients w1.
Proof.
  intros H. destruct (Connect_established _ _ _ H) as (d & Hd & Hc).
  split.
  - exists d. split; [exact Hd|].
    rewrite (kept_DB _ _ (run_all_keeps cs w1 d Hd)). exact Hd.
  - cbn zeta.
    assert (HC : Mongo.Close w1
                 = (Resolved JUndefined,
                    emit (EvClose (db_client d))
                         (set_closed ({[db_client d]} ∪ closed w1) w1))).
    { unfold Mongo.Close, bind, read. rewrite Hc. reflexivity. }
    rewrite HC. cbn [fst snd].
    set (w2 := emit _ _).
    assert (Hd2 : DB w2 = Some d) by exact Hd.
    pose proof (run_all_keeps cs w2 d Hd2) as Hs.
    assert (Hd3 : DB (run_all cs w2) = Some d)
      by (rewrite (kept_DB _ _ Hs); exact Hd2).
    split; [reflexivity|]. split.
    + exists d. repeat split; try assumption.
      apply (kept_closed _ _ Hs). cbn. set_solver.
    + split; [exact (Connect_connected conf' _ d Hd3)|]. split.
      * rewrite (kept_calls _ _ Hs). unfold w2, connect_calls. cbn.
        rewrite List.filter_app, List.length_app. cbn. lia.
      * rewrite (kept_clients _ _ Hs). reflexivity.
Qed.

Lemma handle_survives_close_witness :
  let w3 := run_all [CallFind "movies" FAll None Mongo.default_sort Mongo.default_limit 0;
                     CallConnect Sample.conf]
                    (snd (Mongo.Close Sample.connected)) in
  Mongo.Connect Sample.conf w3 = (Resolved JUndefined, w3)
  /\ connect_calls w3 = 1%nat.
Proof.
  destruct (handle_survives_close Sample.conf Sample.conf Sample.fresh Sample.connected
              [CallFind "movies" FAll None Mongo.default_sort Mongo.default_limit 0;
               CallConnect Sample.conf] eq_refl)
    as (_ & _ & _ & H & Hc & _).
  split; [exact H | exact Hc].
Defined.

(* ===================================================================== *)
(** ** The guard of the facade *)
(* ===================================================================== *)

Lemma Collection_connected c w d :
  DB w = Some d -> Mongo.Collection c w = (Resolved (Driver.db_collection d c), w).
Proof. intros H. unfold Mongo.Collection, bind, read. rewrite H. reflexivity. Qed.

Lemma Collection_not_connected c w :
  DB w = None -> Mongo.Collection c w = (Rejected (ErrString "Not connected"), w).
Proof. intros H. unfold Mongo.Collection, bind, read. rewrite H. reflexivity. Qed.

(** Thirteen of the fourteen document-set operations start with
    [Collection] and so reject with "Not connected" when [DB] is unset. *)
Lemma guarded_operations_reject c w :
  DB w = None ->
  document_set_operation c = true ->
  (forall n, c <> CallCollectionExist n) ->
  run c w = (Rejected (ErrString "Not connected"), w).
Proof.
  intros H Hop Hne. destruct c; try discriminate Hop;
    try (exfalso; eapply Hne; reflexivity).
  all: cbn [run]; unfold discard, Mongo.Find, Mongo.FindCursor, Mongo.Distinct,
    Mongo.InsertOne, Mongo.InsertMany, Mongo.DeleteOne, Mongo.DeleteMany, Mongo.UpdateOne,
    Mongo.UpdateMany, Mongo.Count, Mongo.Aggregate, Mongo.Aggregate_cursor, Mongo.CreateIndex,
    Mongo.Stats, Mongo.Collection, bind, read; rewrite H; reflexivity.
Qed.

(** C6. [CollectionExist] is the one document-set operation that does not
    go through [Collection]: called before any connection, it fails on the
    property access on the unset handle, with a TypeError and not with the
    "Not connected" rejection of the other operations. *)
Theorem CollectionExist_unguarded :
  DB Sample.fresh = None
  /\ Mongo.CollectionExist "movies" Sample.fresh
     = (Rejected (ErrType "Cannot read properties of undefined (reading 'listCollections')"),
        Sample.fresh)
  /\ fst (Mongo.CollectionExist "movies" Sample.fresh) <> Rejected (ErrString "Not connected")
  /\ run (CallStats "movies") Sample.fresh = (Rejected (ErrString "Not connected"), Sample.fresh).
Proof.
  split; [reflexivity|]. split; [reflexivity|]. split; [discriminate|reflexivity].
Qed.

(* ===================================================================== *)
(** ** The title route without a title *)
(* ===================================================================== *)

(** C7. When the query string has no [title], the route answers with the
    string "Error" as body under the default status, and the only thing it
    does besides is to log that answer: no connection attempt, no command,
    the database untouched. *)
Theorem missing_title_answers_Error config w :
  getMoviesByTitle config None w
  = (Resolved {| status := 200; body := JString "Error" |},
     emit (EvLog [LVal (JString "Error")]) w)
  /\ List.filter is_driver_call (trace (snd (getMoviesByTitle config None w)))
     = List.filter is_driver_call (trace w)
  /\ store (snd (getMoviesByTitle config None w)) = store w.
Proof.
  split; [reflexivity|]. split; [|reflexivity].
  cbn. rewrite List.filter_app. cbn. apply app_nil_r.
Qed.

(* ===================================================================== *)
(** ** [Find] on a usable connection *)
(* ===================================================================== *)

Lemma sort_docs_no_keys l : sort_docs [] l = l.
Proof.
  induction l as [|d l IH]; [reflexivity|].
  unfold sort_docs in *. cbn [fold_right]. rewrite IH. destruct l; reflexivity.
Qed.

Lemma select_filter q : forall docs sel,
  select q docs = Some sel ->
  sel = List.filter (fun d => match filter_matches q d with Some b => b | None => false end) docs.
Proof.
  induction docs as [|d docs IH]; intros sel H; cbn in H.
  - now inversion H.
  - destruct (filter_matches q d) as [b|] eqn:E; [|discriminate].
    destruct (select q docs) as [rest|]; [|discriminate].
    inversion H; subst. cbn. rewrite E. rewrite (IH rest eq_refl). reflexivity.
Qed.

Lemma window_matching c q p s limit skip sel :
  Driver.window
    (let cursor := Driver.cursor_project p (Driver.collection_find c q (Some p)) in
     let cursor := if truthy_sort s then Driver.cursor_sort s cursor else cursor in
     let cursor := if truthy_limit limit
                   then Driver.cursor_limit (limit_number limit) cursor else cursor in
     if negb (skip =? 0)%nat then Driver.cursor_skip skip cursor else cursor) sel
  = matching_window p s limit skip sel.
Proof.
  unfold Driver.window, matching_window, ordered. cbn zeta.
  assert (Hskip : forall k, Driver.cur_skip
            (if negb (skip =? 0)%nat then Driver.cursor_skip skip k else k)
            = (if (skip =? 0)%nat then Driver.cur_skip k else skip)).
  { intros k. destruct (skip =? 0)%nat; reflexivity. }
  destruct (skip =? 0)%nat eqn:Es; cbn [negb];
    [apply Nat.eqb_eq in Es; subst skip|];
    destruct (truthy_sort s); destruct limit as [[|]|[|[|n]]]; cbn;
    rewrite ?sort_docs_no_keys; reflexivity.
Qed.

Lemma with_open_client_open {A} d (m : Async A) w :
  db_client d ∉ closed w -> Driver.with_open_client d m w = m w.
Proof.
  intros H. unfold Driver.with_open_client.
  destruct (decide (db_client d ∈ closed w)); [contradiction|reflexivity].
Qed.

Lemma FindCursor_connected coll q p s limit skip w d :
  DB w = Some d ->
  Mongo.FindCursor coll q (Some p) s limit skip w
  = (Resolved (find_cursor d coll q p s limit skip), w).
Proof.
  intros H. unfold Mongo.FindCursor.
  rewrite (bind_resolved _ _ _ _ _ (Collection_connected coll w d H)). reflexivity.
Qed.

Lemma find_cursor_fields d coll q p s limit skip :
  Driver.cur_coll (find_cursor d coll q p s limit skip) = Driver.db_collection d coll
  /\ Driver.cur_filter (find_cursor d coll q p s limit skip) = q
  /\ Driver.cur_projection (find_cursor d coll q p s limit skip) = p.
Proof.
  unfold find_cursor.
  destruct (negb _), (truthy_limit _), (truthy_sort _); repeat split; reflexivity.
Qed.

Lemma toArray_usable d coll q p s limit skip w sel :
  db_client d ∉ closed w ->
  proj_valid p = true ->
  select q (documents w coll) = Some sel ->
  Driver.cursor_toArray (find_cursor d coll q p s limit skip) w
  = (Resolved (matching_window p s limit skip sel), emit (EvFind coll q) w).
Proof.
  intros Hopen Hp Hsel. unfold Driver.cursor_toArray.
  destruct (find_cursor_fields d coll q p s limit skip) as (Hc & Hf & Hpr).
  rewrite Hc, Hf, Hpr. cbn [coll_db coll_name Driver.db_collection].
  rewrite with_open_client_open by assumption.
  unfold bind, update, read, ret. rewrite Hp.
  change (documents (emit (EvFind coll q) w) coll) with (documents w coll).
  rewrite Hsel. unfold find_cursor. rewrite window_matching. reflexivity.
Qed.

Lemma Find_usable coll q p s limit skip w sel :
  usable w ->
  proj_valid (default [] p) = true ->
  select q (documents w coll) = Some sel ->
  Mongo.Find coll q p s limit skip w
  = (Resolved (if strict_eq_true limit
               then Mongo.first_or_undefined (matching_window (default [] p) s limit skip sel)
               else JDocs (matching_window (default [] p) s limit skip sel)),
     emit (EvFind coll q) w).
Proof.
  intros (d & Hd & Hopen) Hp Hsel. unfold Mongo.Find.
  rewrite (bind_resolved _ _ _ _ _ (FindCursor_connected coll q _ s limit skip w d Hd)).
  rewrite (bind_resolved _ _ _ _ _ (toArray_usable d coll q _ s limit skip w sel Hopen Hp Hsel)).
  reflexivity.
Qed.

Lemma select_In q docs sel :
  select q docs = Some sel ->
  forall d, In d sel <-> In d docs /\ filter_matches q d = Some true.
Proof.
  revert sel. induction docs as [|x docs IH]; intros sel H d; cbn in H.
  - inversion H; subst. cbn. tauto.
  - destruct (filter_matches q x) as [b|] eqn:E; [|discriminate].
    destruct (select q docs) as [rest|]; [|discriminate].
    inversion H; subst. specialize (IH rest eq_refl d).
    destruct b; cbn; rewrite IH; intuition (subst; congruence).
Qed.

(** C5. [Find] with the limit [true] answers with one document, the first
    of the matching ones after ordering and skipping, or with [undefined]
    when there is none (so also when nothing matches); it never answers with
    a sequence then. With any other limit it answers with the sequence of
    the matching documents, ordered, without the first [skip] ones, and cut
    to [limit] of them, a falsy limit ([false], 0) standing for no limit.
    Each document is narrowed to the projection. *)
Theorem Find_limit_sentinel coll q p s limit skip w sel :
  usable w ->
  proj_valid (default [] p) = true ->
  select q (documents w coll) = Some sel ->
  (forall d, In d sel <-> In d (documents w coll) /\ filter_matches q d = Some true)
  /\ (limit = LimBool true ->
      fst (Mongo.Find coll q p s limit skip w)
      = Resolved match drop skip (ordered s sel) with
                 | [] => JUndefined
                 | d :: _ => JDoc (project (default [] p) d)
                 end
      /\ (sel = [] -> fst (Mongo.Find coll q p s limit skip w) = Resolved JUndefined))
  /\ (limit <> LimBool true ->
      fst (Mongo.Find coll q p s limit skip w)
      = Resolved (JDocs (map (project (default [] p))
                             (up_to limit (drop skip (ordered s sel)))))).
Proof.
  intros Hu Hp Hsel. rewrite (Find_usable coll q p s limit skip w sel Hu Hp Hsel).
  cbn [fst]. split; [exact (select_In q _ sel Hsel)|]. split.
  - intros ->. cbn [strict_eq_true]. unfold matching_window. cbn [up_to]. split.
    + destruct (drop skip (ordered s sel)) as [|d rest]; reflexivity.
    + intros ->. unfold ordered. destruct (truthy_sort s); cbn; now rewrite drop_nil.
  - intros Hl. destruct limit as [[|]|n]; [congruence| |]; reflexivity.
Qed.

(* ===================================================================== *)
(** ** Title search *)
(* ===================================================================== *)

Lemma rx_parse_plain p :
  forallb plain_char p = true -> rx_parse p = Some (map RxLit p).
Proof.
  induction p as [|c p IH]; cbn [forallb rx_parse map]; [reflexivity|].
  intros H. apply andb_prop in H as [Hc Hp]. rewrite (IH Hp), Hc.
  destruct (Ascii.eqb c "." ) eqn:E; [|reflexivity].
  apply Ascii.eqb_eq in E. subst c. discriminate Hc.
Qed.

Lemma rx_match_here_lits p : forall s,
  rx_match_here ci_flags (map RxLit p) s = true <-> exists post, lower s = lower p ++ post.
Proof.
  induction p as [|c p IH]; intros s; cbn [map rx_match_here lower].
  - split; [intros _; now exists (lower s)|reflexivity].
  - destruct s as [|x s]; cbn [map lower].
    + split; [discriminate|intros [post H]; discriminate].
    + change (rx_atom_match ci_flags (RxLit c) x) with (Ascii.eqb (to_lower c) (to_lower x)).
      rewrite andb_true_iff, Ascii.eqb_eq, IH. unfold lower. split.
      * intros [-> [post H]]. exists post. cbn. now rewrite H.
      * intros [post H]. cbn in H. inversion H. split; [congruence|]. now exists post.
Qed.

Lemma rx_search_lits p : forall s,
  rx_search ci_flags (map RxLit p) s = true
  <-> exists pre post, lower s = pre ++ lower p ++ post.
Proof.
  induction s as [|x s IH]; cbn [rx_search]; rewrite orb_true_iff, rx_match_here_lits.
  - split.
    + intros [[post H]|H]; [now exists [], post | discriminate].
    + intros (pre & post & H). left. destruct pre; [now exists post|discriminate].
  - rewrite IH. split.
    + intros [[post H]|(pre & post & H)]; [now exists [], post|].
      exists (to_lower x :: pre), post. cbn. f_equal. exact H.
    + intros (pre & post & H). destruct pre as [|a pre].
      * left. now exists post.
      * right. cbn [lower map app] in H. inversion H. now exists pre, post.
Qed.

Lemma regex_test_plain t s :
  plain_pattern t ->
  regex_test t "$i" s = Some (rx_search ci_flags (map RxLit (chars t)) (chars s)).
Proof.
  intros H. unfold regex_test. change (rx_extended (rx_flags "$i")) with false.
  cbn iota. rewrite (rx_parse_plain _ H). reflexivity.
Qed.

Lemma contains_ci_search t s :
  contains_ci t s <-> rx_search ci_flags (map RxLit (chars t)) (chars s) = true.
Proof. unfold contains_ci. now rewrite rx_search_lits. Qed.

Lemma title_matchb_spec t d : title_matchb t d = true <-> title_contains_ci t d.
Proof.
  unfold title_matchb, title_contains_ci.
  destruct (doc_get "title" d) as [[s|n|o|z|l]|]; try (split; [discriminate|tauto]).
  - symmetry. apply contains_ci_search.
  - rewrite existsb_exists, List.Exists_exists.
    split; intros (s & Hs & H); exists s; split; try assumption; now apply contains_ci_search.
Qed.

Lemma regex_any_plain t l :
  plain_pattern t ->
  regex_any t "$i" l
  = Some (existsb (fun s => rx_search ci_flags (map RxLit (chars t)) (chars s)) l).
Proof.
  intros H. induction l as [|s l IH]; [reflexivity|].
  cbn [regex_any existsb]. now rewrite (regex_test_plain t s H), IH.
Qed.

Lemma filter_matches_title t d :
  plain_pattern t ->
  filter_matches (FRegex "title" t "$i") d = Some (title_matchb t d).
Proof.
  intros H. unfold filter_matches, title_matchb, value_matches_regex.
  destruct (doc_get "title" d) as [[s|n|o|z|l]|];
    rewrite ?(regex_test_plain t _ H), ?(regex_any_plain t _ H); reflexivity.
Qed.

Lemma select_title t docs :
  plain_pattern t ->
  select (FRegex "title" t "$i") docs = Some (List.filter (title_matchb t) docs).
Proof.
  intros H. induction docs as [|d docs IH]; [reflexivity|].
  cbn [select List.filter]. rewrite (filter_matches_title t d H), IH. reflexivity.
Qed.

Lemma usable_connected : usable Sample.connected.
Proof.
  exists {| db_client := 0; db_name := "sample_mflix" |}. split; [reflexivity|].
  vm_compute. set_solver.
Qed.

Lemma Find_limit_sentinel_witness :
  fst (Mongo.Find "movies" FAll None Mongo.default_sort (LimBool true) 1 Sample.connected)
  = Resolved (JDoc Sample.matrix).
Proof.
  exact (proj1 (proj1 (proj2
           (Find_limit_sentinel "movies" FAll None Mongo.default_sort (LimBool true) 1
              Sample.connected [Sample.up; Sample.matrix] usable_connected eq_refl eq_refl))
           eq_refl)).
Defined.

(* ===================================================================== *)
(** ** Projections and the defensive connect *)
(* ===================================================================== *)

Lemma proj_lookup_inclusions f p :
  forallb snd p = true ->
  proj_lookup f p = if existsb (String.eqb f) (map fst p) then Some true else None.
Proof.
  unfold proj_lookup. induction p as [|[k b] p IH]; cbn; [reflexivity|].
  intros H. apply andb_prop in H as [Hb Hp]. cbn in Hb. subst b.
  rewrite (String.eqb_sym f k). destruct (String.eqb k f); cbn; [reflexivity|].
  apply IH, Hp.
Qed.

Lemma project_inclusions p d :
  forallb snd p = true -> p <> [] ->
  project p d = only_fields ("_id" :: map fst p) d.
Proof.
  intros Hall Hne. unfold project, only_fields.
  apply List.filter_ext. intros [f v]. cbn [fst existsb].
  unfold keep_field.
  assert (Hincl : proj_has_inclusion p = true).
  { destruct p as [|[k b] p]; [congruence|]. cbn in *.
    apply andb_prop in Hall as [-> _]. reflexivity. }
  rewrite Hincl, (proj_lookup_inclusions f p Hall).
  destruct (existsb (String.eqb f) (map fst p)); [now rewrite orb_true_r|now rewrite orb_false_r].
Qed.

Lemma only_fields_ext names names' d :
  (forall f, existsb (String.eqb f) names = existsb (String.eqb f) names') ->
  only_fields names d = only_fields names' d.
Proof. intros H. apply List.filter_ext. intros e. apply H. Qed.

Lemma try_connect_connected conf (h : JsError -> Async unit) w d :
  DB w = Some d ->
  try_catch (Mongo.Connect conf ;;; ret tt) h w = (Resolved tt, w).
Proof.
  intros H. unfold try_catch.
  rewrite (bind_resolved _ _ _ _ _ (Connect_connected conf w d H)). reflexivity.
Qed.

Lemma try_connect_failed conf (h : JsError -> Async unit) w e w1 :
  Mongo.Connect conf w = (Rejected e, w1) ->
  try_catch (Mongo.Connect conf ;;; ret tt) h w = h e w1.
Proof.
  intros H. unfold try_catch. rewrite (bind_rejected _ _ _ _ _ H). reflexivity.
Qed.

Lemma usable_emit e w : usable w -> usable (emit e w).
Proof. intros (d & Hd & Hc). exists d. split; assumption. Qed.

(* ===================================================================== *)
(** ** Movies by title *)
(* ===================================================================== *)

Lemma obtenerPeliculasPorTitulo_usable config t w :
  usable w -> plain_pattern t ->
  obtenerPeliculasPorTitulo config t w
  = (Resolved (JDocs (map (only_fields ["_id"; "title"])
                          (List.filter (title_matchb t) (documents w "movies")))),
     emit (EvFind "movies" (FRegex "title" t "$i")) w).
Proof.
  intros Hu Hp. unfold obtenerPeliculasPorTitulo.
  destruct Hu as (d & Hd & Hc).
  rewrite (bind_resolved _ _ _ _ _ (try_connect_connected config _ w d Hd)).
  rewrite bind_ret.
  rewrite (Find_usable "movies" (FRegex "title" t "$i")
             (Some [("title", true); ("_id", true)]) Mongo.default_sort Mongo.default_limit
             Mongo.default_skip w _ (ex_intro _ d (conj Hd Hc)) eq_refl
             (select_title t _ Hp)).
  cbn [strict_eq_true Mongo.default_limit]. unfold matching_window.
  cbn [up_to Mongo.default_limit ordered truthy_sort Mongo.default_sort sort_keys Mongo.default_skip default].
  rewrite sort_docs_no_keys. cbn [drop]. do 3 f_equal.
  apply List.map_ext. intros x.
  rewrite project_inclusions by (reflexivity || discriminate).
  apply only_fields_ext. intros f. cbn. destruct (String.eqb f "_id"), (String.eqb f "title"); reflexivity.
Qed.

(** C1, as amended. On a usable connection and for a title [t] made of
    characters without a special meaning in a pattern, the title search
    answers with exactly the movies whose title contains [t], ASCII letter
    case ignored, each cut down to its [_id] and [title]. *)
Theorem title_search_plain config t w :
  usable w -> plain_pattern t -> title_search_is_substring_search config t w.
Proof.
  intros Hu Hp. eexists _, _. split; [exact (obtenerPeliculasPorTitulo_usable config t w Hu Hp)|].
  intros r. rewrite List.in_map_iff. split.
  - intros (d & <- & Hd). apply List.filter_In in Hd as [Hin Hm].
    exists d. rewrite <- title_matchb_spec. auto.
  - intros (d & Hin & Hm & ->). exists d. split; [reflexivity|].
    apply List.filter_In. rewrite title_matchb_spec. auto.
Qed.

Lemma title_search_plain_witness :
  title_search_is_substring_search Sample.conf "mat" Sample.connected.
Proof. exact (title_search_plain Sample.conf "mat" Sample.connected usable_connected eq_refl). Defined.

(** C1 as stated fails: a title is handed to the server as a pattern, and
    the pattern [.] selects every movie with a non-empty title although no
    title contains a dot. *)
Lemma title_search_dot_counterexample :
  ~ title_search_is_substring_search Sample.conf "." Sample.connected.
Proof.
  intros (result & w' & H & Hiff).
  vm_compute in H. inversion H; subst result; clear H.
  destruct (proj1 (Hiff _) (or_introl eq_refl)) as (d & Hin & Hm & _).
  apply title_matchb_spec in Hm.
  vm_compute in Hin. destruct Hin as [<-|[<-|[]]]; vm_compute in Hm; discriminate.
Qed.

(* ===================================================================== *)
(** ** Movie details and comments of a movie *)
(* ===================================================================== *)

Lemma ObjectId_eqb_eq a b : ObjectId_eqb a b = true <-> a = b.
Proof.
  destruct a as [x], b as [y]. unfold ObjectId_eqb. cbn. rewrite N.eqb_eq.
  split; congruence.
Qed.

Lemma filter_matches_oid f o d :
  filter_matches (FEq f (VObjectId o)) d = Some (has_oid f o d).
Proof.
  unfold filter_matches, has_oid, value_matches_eq.
  destruct (doc_get f d) as [[s|n|o'|z|l]|]; cbn; try reflexivity.
  now rewrite orb_false_r.
Qed.

Lemma select_oid f o docs :
  select (FEq f (VObjectId o)) docs = Some (List.filter (has_oid f o) docs).
Proof.
  induction docs as [|d docs IH]; [reflexivity|].
  cbn [select List.filter]. now rewrite filter_matches_oid, IH.
Qed.

Lemma first_of_filter (g : Document -> Document) h docs :
  Mongo.first_or_undefined (map g (List.filter h docs))
  = match List.find h docs with Some d => JDoc (g d) | None => JUndefined end.
Proof.
  induction docs as [|d docs IH]; [reflexivity|].
  cbn [List.filter List.find]. destruct (h d); [reflexivity|exact IH].
Qed.

Lemma has_oid_true f o d : has_oid f o d = true <-> doc_get f d = Some (VObjectId o).
Proof.
  unfold has_oid. destruct (doc_get f d) as [[s|n|o'|z|l]|]; try (split; discriminate).
  rewrite ObjectId_eqb_eq. split; congruence.
Qed.

Lemma ObjectId_new_parsed s o w :
  ObjectId_parse s = Some o -> ObjectId_new s w = (Resolved o, w).
Proof. intros H. unfold ObjectId_new. rewrite H. reflexivity. Qed.

Lemma obtenerDetalle_usable config movieId o w :
  usable w -> ObjectId_parse movieId = Some o ->
  obtenerDetalle config movieId w
  = (Resolved match movie_with_id o w with
              | Some d => JDoc (only_fields ["_id"; "title"; "year"; "directors"; "plot"] d)
              | None => JUndefined
              end,
     emit (EvFind "movies" (FEq "_id" (VObjectId o))) w).
Proof.
  intros Hu Hp. unfold obtenerDetalle. pose proof Hu as (d & Hd & Hc).
  rewrite (bind_resolved _ _ _ _ _ (try_connect_connected config _ w d Hd)).
  rewrite (bind_resolved _ _ _ _ _ (ObjectId_new_parsed movieId o w Hp)).
  rewrite (bind_resolved _ _ _ _ _
             (Find_usable "movies" (FEq "_id" (VObjectId o)) (Some details_projection)
                Mongo.default_sort Mongo.default_limit Mongo.default_skip w _ Hu eq_refl
                (select_oid "_id" o _))).
  cbn [strict_eq_true Mongo.default_limit index0]. unfold ret, matching_window.
  cbn [up_to Mongo.default_limit ordered truthy_sort Mongo.default_sort sort_keys
       Mongo.default_skip default].
  rewrite sort_docs_no_keys. unfold Mongo.default_skip. rewrite drop_0, first_of_filter.
  unfold movie_with_id. destruct (List.find _ _); [|reflexivity].
  now rewrite project_inclusions by (reflexivity || discriminate).
Qed.

(** C3, as amended. On a usable connection and for a well-formed id, the
    details query answers with exactly one object when a movie has that id:
    that movie cut down to [_id] and the four projected fields (the server
    includes [_id] unless the projection switches it off); and with
    [undefined] when no movie has that id. *)
Theorem details_with_id config movieId o w :
  usable w -> ObjectId_parse movieId = Some o ->
  (exists w',
     obtenerDetalle config movieId w
     = (Resolved match movie_with_id o w with
                 | Some d => JDoc (only_fields ["_id"; "title"; "year"; "directors"; "plot"] d)
                 | None => JUndefined
                 end, w'))
  /\ (forall d, movie_with_id o w = Some d ->
                In d (documents w "movies") /\ doc_id d = Some (VObjectId o))
  /\ (movie_with_id o w = None ->
      forall d, In d (documents w "movies") -> doc_id d <> Some (VObjectId o)).
Proof.
  intros Hu Hp. split; [eexists; exact (obtenerDetalle_usable config movieId o w Hu Hp)|].
  unfold movie_with_id. split.
  - intros d H. apply List.find_some in H as [Hin H]. split; [exact Hin|].
    now apply has_oid_true.
  - intros H d Hin Hid. pose proof (List.find_none _ _ H d Hin) as Hn.
    apply has_oid_true in Hid. unfold doc_id in *. congruence.
Qed.

Lemma details_with_id_witness :
  exists w',
    obtenerDetalle Sample.conf Sample.up_id Sample.connected
    = (Resolved (JDoc (only_fields ["_id"; "title"; "year"; "directors"; "plot"] Sample.up)), w').
Proof.
  exact (proj1 (details_with_id Sample.conf Sample.up_id (OID 1) Sample.connected
                  usable_connected eq_refl)).
Defined.

(** C3 as stated fails: the object returned for an existing movie carries
    [_id] besides the four projected fields. *)
Lemma details_four_fields_counterexample :
  ~ details_are_four_fields Sample.conf Sample.up_id Sample.connected.
Proof.
  intros H. destruct (H (OID 1) eq_refl) as [w' Hw]. vm_compute in Hw. discriminate Hw.
Qed.

Lemma obtenerComentarios_usable config movieId o w :
  usable w -> ObjectId_parse movieId = Some o ->
  obtenerComentarios config movieId w
  = (Resolved (JDocs (map (only_fields ["_id"; "name"; "email"; "text"; "date"])
                          (List.filter (has_oid "movie_id" o) (documents w "comments")))),
     emit (EvFind "comments" (FEq "movie_id" (VObjectId o)))
          (emit (EvLog [LText "La sentencia es: "; LQuery (FEq "movie_id" (VObjectId o))]) w)).
Proof.
  intros Hu Hp. unfold obtenerComentarios. pose proof Hu as (d & Hd & Hc).
  rewrite (bind_resolved _ _ _ _ _ (try_connect_connected config _ w d Hd)).
  rewrite (bind_resolved _ _ _ _ _ (ObjectId_new_parsed movieId o w Hp)).
  unfold console_log.
  rewrite (bind_resolved _ _ w tt (emit (EvLog [LText "La sentencia es: "; LQuery (FEq "movie_id" (VObjectId o))]) w) eq_refl).
  rewrite bind_ret.
  rewrite (Find_usable "comments" (FEq "movie_id" (VObjectId o)) (Some comments_projection)
             Mongo.default_sort Mongo.default_limit Mongo.default_skip _ _
             (usable_emit _ w Hu) eq_refl (select_oid "movie_id" o _)).
  cbn [strict_eq_true Mongo.default_limit]. unfold matching_window.
  cbn [up_to Mongo.default_limit ordered truthy_sort Mongo.default_sort sort_keys
       Mongo.default_skip default].
  rewrite sort_docs_no_keys. cbn [drop]. do 3 f_equal.
  apply List.map_ext. intros x.
  now rewrite project_inclusions by (reflexivity || discriminate).
Qed.

(** C4, as amended. On a usable connection and for a well-formed id, the
    comments query answers with all and only the comments whose [movie_id]
    is that id, each cut down to [_id], [name], [email], [text] and [date];
    the statement is about membership, not about order. *)
Theorem comments_with_id config movieId o w :
  usable w -> ObjectId_parse movieId = Some o ->
  exists result w',
    obtenerComentarios config movieId w = (Resolved (JDocs result), w')
    /\ forall r, In r result <->
                 exists d, In d (documents w "comments")
                           /\ doc_get "movie_id" d = Some (VObjectId o)
                           /\ r = only_fields ["_id"; "name"; "email"; "text"; "date"] d.
Proof.
  intros Hu Hp. eexists _, _. split; [exact (obtenerComentarios_usable config movieId o w Hu Hp)|].
  intros r. rewrite List.in_map_iff. split.
  - intros (d & <- & Hd). apply List.filter_In in Hd as [Hin Hm].
    exists d. rewrite <- has_oid_true. auto.
  - intros (d & Hin & Hm & ->). exists d. split; [reflexivity|].
    apply List.filter_In. rewrite has_oid_true. auto.
Qed.

Lemma comments_with_id_witness :
  exists result w',
    obtenerComentarios Sample.conf Sample.up_id Sample.connected = (Resolved (JDocs result), w')
    /\ forall r, In r result <->
                 exists d, In d (documents Sample.connected "comments")
                           /\ doc_get "movie_id" d = Some (VObjectId (OID 1))
                           /\ r = only_fields ["_id"; "name"; "email"; "text"; "date"] d.
Proof.
  exact (comments_with_id Sample.conf Sample.up_id (OID 1) Sample.connected
           usable_connected eq_refl).
Defined.

(** C4 as stated fails: each comment returned carries [_id] besides the
    four projected fields. *)
Lemma comments_four_fields_counterexample :
  ~ comments_are_four_fields Sample.conf Sample.up_id Sample.connected.
Proof.
  intros H. destruct (H (OID 1) eq_refl) as (result & w' & Hw & Hiff).
  vm_compute in Hw. inversion Hw; subst result; clear Hw.
  destruct (proj1 (Hiff _) (or_introl eq_refl)) as (d & Hin & _ & Hr).
  vm_compute in Hin. destruct Hin as [<-|[]]. vm_compute in Hr. discriminate Hr.
Qed.

(* ===================================================================== *)
(** ** Adding a comment *)
(* ===================================================================== *)

Lemma insertOne_usable d coll c v w :
  db_client d ∉ closed w ->
  doc_id c = Some v ->
  existsb (Driver.has_id v) (documents w coll) = false ->
  Driver.collection_insertOne (Driver.db_collection d coll) c [] w
  = (Resolved (JInsertOneResult v),
     set_store (<[coll := documents w coll ++ [Driver.with_id_first v c]]> (store w))
               (emit (EvInsertOne coll (Driver.with_id_first v c)) w)).
Proof.
  intros Hopen Hid Hfresh. unfold Driver.collection_insertOne.
  cbn [coll_db coll_name Driver.db_collection].
  rewrite with_open_client_open by assumption.
  rewrite Hid. unfold bind, ret, update, read.
  change (documents (emit _ w) coll) with (documents w coll).
  rewrite Hfresh. reflexivity.
Qed.

Lemma insertarComentarios_usable config name email movieId text movie w :
  usable w ->
  ObjectId_parse movieId = Some movie ->
  existsb (Driver.has_id (VObjectId (OID (oid_next w)))) (documents w "comments") = false ->
  insertarComentarios config name email movieId text w
  = (Resolved (JInsertOneResult (VObjectId (OID (oid_next w)))),
     after_insert (comentario (OID (oid_next w)) movie name email text (clock w)) w).
Proof.
  intros (d & Hd & Hc) Hp Hfresh. unfold insertarComentarios, console_log.
  rewrite bind_update.
  set (w1 := emit (EvLog [LText "Entra por insertarComentarios"]) w).
  rewrite (bind_resolved _ _ _ _ _ (try_connect_connected config _ w1 d Hd)).
  rewrite bind_fresh_ObjectId.
  set (w2 := set_oid_next (N.succ (oid_next w1)) w1).
  rewrite (bind_resolved _ _ _ _ _ (ObjectId_new_parsed movieId movie w2 Hp)).
  unfold Date_new. rewrite bind_read.
  rewrite bind_ret. unfold Mongo.InsertOne.
  rewrite (bind_resolved _ _ _ _ _ (Collection_connected "comments" w2 d Hd)).
  cbn [default]. 
  exact (insertOne_usable d "comments"
           (comentario (OID (oid_next w)) movie name email text (clock w))
           (VObjectId (OID (oid_next w))) w2 Hc eq_refl Hfresh).
Qed.

Lemma Value_eqb_refl v : Value_eqb v v = true.
Proof.
  destruct v as [s|n|[o]|z|l]; unfold Value_eqb, ObjectId_eqb; cbn [oid_value].
  - apply String.eqb_refl.
  - apply Z.eqb_refl.
  - apply N.eqb_refl.
  - apply Z.eqb_refl.
  - rewrite Nat.eqb_refl. cbn [andb].
    induction l as [|x l IH]; cbn; [reflexivity|]. now rewrite String.eqb_refl.
Qed.

Lemma has_id_false v docs :
  existsb (Driver.has_id v) docs = false ->
  forall d, In d docs -> doc_id d <> Some v.
Proof.
  intros H d Hin Hid.
  assert (existsb (Driver.has_id v) docs = true); [|congruence].
  apply existsb_exists. exists d. split; [exact Hin|].
  unfold Driver.has_id. rewrite Hid. apply Value_eqb_refl.
Qed.

(* ===================================================================== *)
(** ** A failed defensive connect *)
(* ===================================================================== *)



Lemma try_connect_logged conf msg w e w1 :
  Mongo.Connect conf w = (Rejected e, w1) ->
  try_catch (Mongo.Connect conf ;;; ret tt)
            (fun error => console_log [LText msg; LErr error]) w
  = (Resolved tt, connect_error_logged msg e w1).
Proof. intros H. now rewrite (try_connect_failed conf _ w e w1 H). Qed.

(* ===================================================================== *)
(** ** What computations keep, for any preorder on worlds *)
(* ===================================================================== *)

Section Preservation.

Context (R : relation World) `{!PreOrder R}.

Lemma Preserves_ret {A} (a : A) : Preserves R (ret a).
Proof. intros w. reflexivity. Qed.

Lemma Preserves_reject {A} e : Preserves R (@reject A e).
Proof. intros w. reflexivity. Qed.

Lemma Preserves_unmodelled {A} : Preserves R (@unmodelled A).
Proof. intros w. reflexivity. Qed.

Lemma Preserves_read {A} (f : World -> A) : Preserves R (read f).
Proof. intros w. reflexivity. Qed.

Lemma Preserves_update f : (forall w, R w (f w)) -> Preserves R (update f).
Proof. intros H w. apply H. Qed.

Lemma Preserves_bind {A B} (m : Async A) (k : A -> Async B) :
  Preserves R m -> (forall a, Preserves R (k a)) -> Preserves R (bind m k).
Proof.
  intros Hm Hk w. unfold bind. specialize (Hm w).
  destruct (m w) as [[a|e|] w']; cbn in *; try assumption.
  etransitivity; [exact Hm | apply Hk].
Qed.

Lemma Preserves_try_catch {A} (m : Async A) (h : JsError -> Async A) :
  Preserves R m -> (forall e, Preserves R (h e)) -> Preserves R (try_catch m h).
Proof.
  intros Hm Hh w. unfold try_catch. specialize (Hm w).
  destruct (m w) as [[a|e|] w']; cbn in *; try assumption.
  etransitivity; [exact Hm | apply Hh].
Qed.

Lemma Preserves_with_open_client {A} d (m : Async A) :
  Preserves R m -> Preserves R (Driver.with_open_client d m).
Proof.
  intros Hm w. unfold Driver.with_open_client.
  destruct (decide _); [reflexivity | apply Hm].
Qed.

Lemma Preserves_if {A} (b : bool) (m1 m2 : Async A) :
  Preserves R m1 -> Preserves R m2 -> Preserves R (if b then m1 else m2).
Proof. destruct b; auto. Qed.

(** A sequence of steps keeps what each step keeps. *)
Lemma Preserves_fold {X} (f : World -> X -> World) xs :
  (forall w x, R w (f w x)) -> forall w, R w (fold_left f xs w).
Proof.
  intros H. induction xs as [|x xs IH]; intros w; cbn; [reflexivity|].
  etransitivity; [apply H | apply IH].
Qed.

End Preservation.

#[local] Instance store_kept_preorder : PreOrder store_kept.
Proof. split; [intros w; reflexivity | intros a b c H1 H2; unfold store_kept in *; congruence]. Qed.

#[local] Instance silent_preorder : PreOrder silent.
Proof.
  split; [intros w; split; reflexivity|].
  intros a b c [H1 H1'] [H2 H2']. split; congruence.
Qed.

#[local] Instance handles_kept_preorder : PreOrder handles_kept.
Proof.
  split; [intros w; repeat split; reflexivity|].
  intros a b c (?&?&?&?&?) (?&?&?&?&?). repeat split; congruence.
Qed.

#[local] Instance only_appends_preorder c : PreOrder (only_appends c).
Proof.
  split.
  - intros w. split; [reflexivity|]. exists []. now rewrite app_nil_r.
  - intros w1 w2 w3 [H1 [a1 E1]] [H2 [a2 E2]]. split.
    + intros c' Hc. now rewrite (H2 c' Hc), (H1 c' Hc).
    + exists (a1 ++ a2). now rewrite E2, E1, app_assoc.
Qed.

(** Walks through a computation built from the combinators; [known] is
    tried first on every part, so that parts with a lemma are not opened. *)
Ltac preserves_by known :=
  repeat first
    [ progress intros
    | known
    | apply Preserves_ret; typeclasses eauto
    | apply Preserves_reject; typeclasses eauto
    | apply Preserves_unmodelled; typeclasses eauto
    | apply Preserves_read; typeclasses eauto
    | apply Preserves_bind; [typeclasses eauto | | ]
    | apply Preserves_try_catch; [typeclasses eauto | | ]
    | apply Preserves_with_open_client; [typeclasses eauto | ]
    | apply Preserves_if
    | match goal with
      | |- Preserves _ (match ?x with _ => _ end) => destruct x
      end ].

Ltac preserves := preserves_by fail.

(* ===================================================================== *)
(** ** What the facade and the handlers keep *)
(* ===================================================================== *)

Lemma commands_emit e w :
  commands (emit e w) = commands w ++ (if is_command e then [e] else []).
Proof. unfold commands. cbn. now rewrite List.filter_app. Qed.

Lemma silent_emit e w : is_command e = false -> silent w (emit e w).
Proof.
  intros H. split; [reflexivity|]. rewrite commands_emit, H. apply app_nil_r.
Qed.

Lemma Connect_silent conf : Preserves silent (Mongo.Connect conf).
Proof.
  intros w. unfold Mongo.Connect, bind, read. destruct (DB w); [reflexivity|].
  unfold Driver.connect.
  destruct (net w) as [|[err| |] rest]; cbn;
    try (split; [reflexivity|unfold commands; cbn; rewrite List.filter_app; apply app_nil_r]).
  unfold Driver.client_db. destruct (Driver.valid_db_name (db conf)); cbn;
    (split; [reflexivity|unfold commands; cbn; rewrite List.filter_app; apply app_nil_r]).
Qed.

Lemma console_log_silent args : Preserves silent (console_log args).
Proof. intros w. now apply silent_emit. Qed.

Lemma silent_store_kept w w' : silent w w' -> store_kept w w'.
Proof. now intros [H _]. Qed.

(** The defensive connect of the handlers always resolves, whatever
    [Connect] did, and sends nothing to the server. *)
Lemma try_connect_resolves conf msg w :
  exists w', try_catch (Mongo.Connect conf ;;; ret tt)
               (fun error => console_log [LText msg; LErr error]) w = (Resolved tt, w')
             /\ silent w w'.
Proof.
  destruct (DB w) as [d|] eqn:E.
  - exists w. split; [exact (try_connect_connected conf _ w d E) | reflexivity].
  - destruct (Connect_cases conf w E) as [(e & w1 & H & _)|(d & w1 & H & _)].
    + exists (connect_error_logged msg e w1). split; [exact (try_connect_logged conf msg w e w1 H)|].
      pose proof (Connect_silent conf w) as Hs. rewrite H in Hs. cbn in Hs.
      etransitivity; [exact Hs|]. now apply silent_emit.
    + exists w1. split.
      * unfold try_catch. now rewrite (bind_resolved _ _ _ _ _ H).
      * pose proof (Connect_silent conf w) as Hs. now rewrite H in Hs.
Qed.

Lemma try_connect_store_kept conf msg :
  Preserves store_kept
    (try_catch (Mongo.Connect conf ;;; ret tt)
       (fun error => console_log [LText msg; LErr error])).
Proof.
  intros w. destruct (try_connect_resolves conf msg w) as (w' & H & Hs).
  rewrite H. exact (silent_store_kept _ _ Hs).
Qed.

Lemma emit_store_kept e : Preserves store_kept (update (emit e)).
Proof. intros w. reflexivity. Qed.

Lemma Collection_store_kept c : Preserves store_kept (Mongo.Collection c).
Proof. unfold Mongo.Collection. preserves. Qed.

Lemma toArray_store_kept c : Preserves store_kept (Driver.cursor_toArray c).
Proof. unfold Driver.cursor_toArray. preserves_by ltac:(apply emit_store_kept). Qed.

(** [Find] reads: whatever its arguments and the state of the connection,
    it leaves the database as it was. *)
Lemma Find_store_kept coll q p s limit skip :
  Preserves store_kept (Mongo.Find coll q p s limit skip).
Proof.
  unfold Mongo.Find, Mongo.FindCursor.
  preserves_by ltac:(first [apply Collection_store_kept | apply toArray_store_kept]).
Qed.

Lemma ObjectId_new_preserves (R : relation World) `{!PreOrder R} s :
  Preserves R (ObjectId_new s).
Proof. unfold ObjectId_new. preserves. Qed.

Lemma index0_preserves (R : relation World) `{!PreOrder R} v : Preserves R (index0 v).
Proof. unfold index0. preserves. Qed.

Lemma obtenerPeliculasPorTitulo_store_kept config t :
  Preserves store_kept (obtenerPeliculasPorTitulo config t).
Proof.
  unfold obtenerPeliculasPorTitulo.
  preserves_by ltac:(first [apply try_connect_store_kept | apply Find_store_kept]).
Qed.

Lemma obtenerDetalle_store_kept config movieId :
  Preserves store_kept (obtenerDetalle config movieId).
Proof.
  unfold obtenerDetalle.
  preserves_by ltac:(first [apply try_connect_store_kept | apply Find_store_kept
                           | apply ObjectId_new_preserves; typeclasses eauto
                           | apply index0_preserves; typeclasses eauto]).
Qed.

Lemma obtenerComentarios_store_kept config movieId :
  Preserves store_kept (obtenerComentarios config movieId).
Proof.
  unfold obtenerComentarios.
  preserves_by ltac:(first [apply try_connect_store_kept | apply Find_store_kept
                           | apply emit_store_kept
                           | apply ObjectId_new_preserves; typeclasses eauto]).
Qed.

Lemma getMoviesByTitle_store_kept config title :
  Preserves store_kept (getMoviesByTitle config title).
Proof.
  unfold getMoviesByTitle.
  preserves_by ltac:(first [apply obtenerPeliculasPorTitulo_store_kept | apply emit_store_kept]).
Qed.

Lemma details_store_kept config movieId : Preserves store_kept (details config movieId).
Proof.
  unfold details.
  preserves_by ltac:(first [apply obtenerDetalle_store_kept | apply emit_store_kept]).
Qed.

Lemma comments_store_kept config movieId : Preserves store_kept (comments config movieId).
Proof.
  unfold comments.
  preserves_by ltac:(first [apply obtenerComentarios_store_kept | apply emit_store_kept]).
Qed.

(** X1. The three reading routes leave the database as it was, for every
    input and in every state of the connection, whether they answer or fail. *)
Theorem reading_routes_keep_store config w :
  (forall title, store (snd (getMoviesByTitle config title w)) = store w)
  /\ (forall movieId, store (snd (details config movieId w)) = store w)
  /\ (forall movieId, store (snd (comments config movieId w)) = store w).
Proof.
  split; [|split]; intros x.
  - apply getMoviesByTitle_store_kept.
  - apply details_store_kept.
  - apply comments_store_kept.
Qed.

Lemma Preserves_sub (R R' : relation World) {A} (m : Async A) :
  (forall w w', R w w' -> R' w w') -> Preserves R m -> Preserves R' m.
Proof. intros H Hm w. apply H, Hm. Qed.

Lemma store_kept_only_appends c w w' : store_kept w w' -> only_appends c w w'.
Proof.
  intros H. unfold store_kept in H. split.
  - intros c' _. unfold documents. now rewrite H.
  - exists []. unfold documents. now rewrite H, app_nil_r.
Qed.

Lemma only_appends_insert c x w w0 :
  store w0 = store w ->
  only_appends c w (set_store (<[c := documents w0 c ++ [x]]> (store w0)) w0).
Proof.
  intros H. split.
  - intros c' Hc. unfold documents. cbn. rewrite lookup_insert_ne by congruence.
    now rewrite H.
  - exists [x]. unfold documents. cbn. rewrite lookup_insert_eq. cbn. now rewrite H.
Qed.

Lemma insertOne_only_appends h d o :
  Preserves (only_appends (coll_name h)) (Driver.collection_insertOne h d o).
Proof.
  intros w. unfold Driver.collection_insertOne, Driver.with_open_client.
  destruct (decide _); [reflexivity|].
  unfold bind, ret, update, read, reject, Driver.fresh_ObjectId.
  destruct (doc_id d) as [v|]; cbn [fst snd];
    match goal with
    | |- context [existsb ?f ?l] => destruct (existsb f l)
    end; cbn [fst snd];
    first [ apply store_kept_only_appends; reflexivity
          | apply only_appends_insert; reflexivity ].
Qed.

Lemma InsertOne_only_appends coll d o :
  Preserves (only_appends coll) (Mongo.InsertOne coll d o).
Proof.
  intros w. unfold Mongo.InsertOne, Mongo.Collection.
  unfold bind at 1 2, read at 1. destruct (DB w) as [h|]; [|reflexivity].
  exact (insertOne_only_appends (Driver.db_collection h coll) d (default [] o) w).
Qed.

Lemma insertarComentarios_only_appends config name email movieId text :
  Preserves (only_appends "comments")
    (insertarComentarios config name email movieId text).
Proof.
  unfold insertarComentarios, Date_new.
  preserves_by ltac:(first
    [ apply InsertOne_only_appends
    | apply ObjectId_new_preserves; typeclasses eauto
    | apply (Preserves_sub store_kept);
        [apply store_kept_only_appends
        | first [apply emit_store_kept | apply try_connect_store_kept
                | intros w; reflexivity] ] ]).
Qed.

Lemma serve_only_appends config r : Preserves (only_appends "comments") (serve config r).
Proof.
  destruct r as [title|movieId|movieId|name email movieId text]; cbn [serve].
  1-3: apply (Preserves_sub store_kept); [apply store_kept_only_appends|].
  - apply getMoviesByTitle_store_kept.
  - apply details_store_kept.
  - apply comments_store_kept.
  - unfold addComment.
    preserves_by ltac:(apply insertarComentarios_only_appends).
Qed.

(** X2. Whatever requests are served, in whatever state of the connection,
    every collection other than [comments] stays as it was and [comments]
    only grows at its end: nothing stored is ever changed or removed. *)
Theorem requests_only_append_comments config rs w :
  (forall c, c <> "comments" ->
             documents (serve_all config rs w) c = documents w c)
  /\ exists added,
       documents (serve_all config rs w) "comments" = documents w "comments" ++ added.
Proof.
  apply (Preserves_fold (only_appends "comments")).
  intros w0 r. apply serve_only_appends.
Qed.

(* ===================================================================== *)
(** ** Start-up and the connection while requests are served *)
(* ===================================================================== *)

#[local] Instance connected_handles_kept_preorder : PreOrder connected_handles_kept.
Proof.
  split; [intros w _; reflexivity|].
  intros a b c H1 H2 Ha. specialize (H1 Ha).
  etransitivity; [exact H1|]. apply H2.
  destruct H1 as (HDB & _). now rewrite HDB.
Qed.

Lemma handles_kept_connected w w' : handles_kept w w' -> connected_handles_kept w w'.
Proof. intros H _. exact H. Qed.

Lemma emit_handles_kept e : is_connect e = false -> Preserves handles_kept (update (emit e)).
Proof.
  intros H w. repeat split.
  unfold connect_calls. cbn. rewrite List.filter_app, List.length_app. cbn.
  rewrite H. cbn. lia.
Qed.

Lemma set_store_handles_kept f :
  Preserves handles_kept (update (fun w => set_store (f w) w)).
Proof. intros w. repeat split. Qed.

Lemma fresh_ObjectId_handles_kept : Preserves handles_kept Driver.fresh_ObjectId.
Proof. intros w. repeat split. Qed.

Ltac handles_leaf :=
  first [ apply emit_handles_kept; reflexivity
        | apply set_store_handles_kept
        | apply fresh_ObjectId_handles_kept
        | apply ObjectId_new_preserves; typeclasses eauto
        | apply index0_preserves; typeclasses eauto ].

(** [Find] and [InsertOne] neither connect nor close. *)
Lemma Find_handles_kept coll q p s limit skip :
  Preserves handles_kept (Mongo.Find coll q p s limit skip).
Proof.
  unfold Mongo.Find, Mongo.FindCursor, Mongo.Collection, Driver.cursor_toArray.
  preserves_by handles_leaf.
Qed.

Lemma InsertOne_handles_kept coll d o :
  Preserves handles_kept (Mongo.InsertOne coll d o).
Proof.
  unfold Mongo.InsertOne, Mongo.Collection, Driver.collection_insertOne.
  preserves_by handles_leaf.
Qed.

Lemma try_connect_connected_handles conf (h : JsError -> Async unit) :
  Preserves connected_handles_kept (try_catch (Mongo.Connect conf ;;; ret tt) h).
Proof.
  intros w [d Hd]. rewrite (try_connect_connected conf h w d Hd). reflexivity.
Qed.

Ltac connected_leaf :=
  first [ apply try_connect_connected_handles
        | apply (Preserves_sub handles_kept);
            [ apply handles_kept_connected
            | first [ apply Find_handles_kept | apply InsertOne_handles_kept
                    | handles_leaf | intros ?; reflexivity ] ] ].

Lemma serve_connected_handles config r :
  Preserves connected_handles_kept (serve config r).
Proof.
  destruct r as [title|movieId|movieId|name email movieId text]; cbn [serve];
    unfold getMoviesByTitle, details, comments, addComment, obtenerPeliculasPorTitulo,
      obtenerDetalle, obtenerComentarios, insertarComentarios, console_log, Date_new;
    preserves_by connected_leaf.
Qed.

Lemma serve_all_connected_handles config rs w :
  connected_handles_kept w (serve_all config rs w).
Proof.
  apply (Preserves_fold connected_handles_kept). intros w0 r. apply serve_connected_handles.
Qed.

(** X3. Once a database handle is set, serving requests never changes the
    module's handles, opens no connection and closes none; a usable
    connection stays usable. The defensive [Connect] of the handlers then
    never connects. *)
Theorem requests_keep_connection config rs w :
  is_Some (DB w) ->
  handles_kept w (serve_all config rs w)
  /\ (usable w -> usable (serve_all config rs w)).
Proof.
  intros H. pose proof (serve_all_connected_handles config rs w H) as Hk.
  split; [exact Hk|].
  destruct Hk as (HDB & _ & Hcl & _). intros (d & Hd & Hopen).
  exists d. rewrite HDB, Hcl. auto.
Qed.

Lemma requests_keep_connection_witness :
  usable (serve_all Sample.conf
            [GetDetails Sample.up_id; PostAddComment "Ana" "ana@x.com" Sample.up_id "great film";
             GetMoviesByTitle (Some "up")] Sample.connected).
Proof.
  apply (requests_keep_connection Sample.conf _ Sample.connected).
  - eexists. reflexivity.
  - exact usable_connected.
Defined.

Lemma Connect_resolved_handle conf w v w1 :
  Mongo.Connect conf w = (Resolved v, w1) -> is_Some (DB w1).
Proof.
  intros H. destruct (DB w) as [d|] eqn:E.
  - rewrite (Connect_connected conf w d E) in H. inversion H; subst. eauto.
  - destruct (Connect_cases conf w E) as [(e & w' & H' & _)|(d & w' & H' & Hd & _)];
      rewrite H' in H; inversion H; subst. eauto.
Qed.

(** X4. When start-up resolves, the server listens on port 3000, [Connect]
    had resolved and a database handle is set, so that no request served
    afterwards makes a connection attempt. *)
Theorem startup_listens_after_connect config w p w1 :
  startup config w = (Resolved p, w1) ->
  p = 3000%nat
  /\ (exists v, fst (Mongo.Connect config w) = Resolved v)
  /\ is_Some (DB w1)
  /\ forall rs, connect_calls (serve_all config rs w1) = connect_calls w1.
Proof.
  intros H. unfold startup in H.
  destruct (Mongo.Connect config w) as [[v|e|] w0] eqn:E;
    [|rewrite (bind_rejected _ _ _ _ _ E) in H; discriminate
     |unfold bind in H; rewrite E in H; discriminate].
  rewrite (bind_resolved _ _ _ _ _ E) in H. inversion H; subst. clear H.
  destruct (Connect_resolved_handle _ _ _ _ E) as [d Hd].
  assert (Hs : is_Some (DB (emit (EvLog [LText "Rest levantado en http://127.0.0.1:3000/"]) w0)))
    by (exists d; exact Hd).
  split; [reflexivity|]. split; [now exists v|]. split; [exact Hs|].
  intros rs. now destruct (serve_all_connected_handles config rs _ Hs) as (_ & _ & _ & _ & Hc).
Qed.

Lemma startup_listens_after_connect_witness :
  connect_calls
    (serve_all Sample.conf [GetComments Sample.up_id; GetMoviesByTitle (Some "up")]
       (snd (startup Sample.conf Sample.fresh))) = 1%nat.
Proof.
  exact (proj2 (proj2 (proj2
           (startup_listens_after_connect Sample.conf Sample.fresh 3000
              (snd (startup Sample.conf Sample.fresh)) eq_refl)))
           [GetComments Sample.up_id; GetMoviesByTitle (Some "up")]).
Defined.

(* ===================================================================== *)
(** ** Generated identifiers are new *)
(* ===================================================================== *)

#[local] Instance data_kept_preorder : PreOrder data_kept.
Proof.
  split; [intros w; split; reflexivity|].
  intros a b c [H1 H1'] [H2 H2']. split; congruence.
Qed.

#[local] Instance ahead_kept_preorder : PreOrder ahead_kept.
Proof. split; [intros w H; exact H | intros a b c H1 H2 H; exact (H2 (H1 H))]. Qed.

(** The generator stays ahead when the comments stay and it does not go
    back. *)
Lemma generator_ahead_later w w' :
  documents w' "comments" = documents w "comments" ->
  (oid_next w <= oid_next w')%N ->
  generator_ahead w -> generator_ahead w'.
Proof.
  intros Hd Hn H d o Hin Hid. rewrite Hd in Hin. specialize (H d o Hin Hid). lia.
Qed.

Lemma data_kept_ahead_kept w w' : data_kept w w' -> ahead_kept w w'.
Proof.
  intros [Hs Hn] H. apply (generator_ahead_later w w'); [|lia|exact H].
  unfold documents. now rewrite Hs.
Qed.

Lemma has_id_oid o d :
  Driver.has_id (VObjectId o) d = true -> doc_id d = Some (VObjectId o).
Proof.
  unfold Driver.has_id. destruct (doc_id d) as [[s|n|x|z|l]|]; try discriminate.
  cbn. intros H. apply ObjectId_eqb_eq in H. now subst.
Qed.

(** What the generator yields next is the identifier of no stored comment. *)
Lemma generator_ahead_fresh w :
  generator_ahead w ->
  existsb (Driver.has_id (VObjectId (OID (oid_next w)))) (documents w "comments") = false.
Proof.
  intros H. apply not_true_is_false. intros Hex.
  apply existsb_exists in Hex as (d & Hin & Hid).
  apply has_id_oid in Hid. specialize (H d _ Hin Hid). cbn in H. lia.
Qed.

Lemma emit_data_kept e : Preserves data_kept (update (emit e)).
Proof. intros w. split; reflexivity. Qed.

Lemma Connect_data_kept conf : Preserves data_kept (Mongo.Connect conf).
Proof.
  intros w. unfold Mongo.Connect, bind, read. destruct (DB w); [reflexivity|].
  unfold Driver.connect.
  destruct (net w) as [|[err| |] rest]; cbn; try (split; reflexivity).
  unfold Driver.client_db. destruct (Driver.valid_db_name (db conf)); cbn; split; reflexivity.
Qed.

Ltac data_leaf :=
  first [ apply Connect_data_kept
        | apply emit_data_kept
        | apply ObjectId_new_preserves; typeclasses eauto
        | apply index0_preserves; typeclasses eauto ].

Lemma reading_routes_data_kept config r :
  (forall name email movieId text, r <> PostAddComment name email movieId text) ->
  Preserves data_kept (serve config r).
Proof.
  intros Hr. destruct r as [title|movieId|movieId|name email movieId text]; cbn [serve];
    try (exfalso; eapply Hr; reflexivity);
    unfold getMoviesByTitle, details, comments, obtenerPeliculasPorTitulo, obtenerDetalle,
      obtenerComentarios, console_log, Mongo.Find, Mongo.FindCursor, Mongo.Collection,
      Driver.cursor_toArray;
    preserves_by data_leaf.
Qed.

Lemma try_connect_data_kept conf msg w w1 :
  try_catch (Mongo.Connect conf ;;; ret tt)
    (fun error => console_log [LText msg; LErr error]) w = (Resolved tt, w1) ->
  data_kept w w1.
Proof.
  intros H.
  assert (Hp : Preserves data_kept
                 (try_catch (Mongo.Connect conf ;;; ret tt)
                    (fun error => console_log [LText msg; LErr error])))
    by (unfold console_log; preserves_by data_leaf).
  specialize (Hp w). now rewrite H in Hp.
Qed.

Lemma insertOne_ahead h d opts o w :
  coll_name h = "comments" ->
  doc_id d = Some (VObjectId o) ->
  (oid_value o < oid_next w)%N ->
  generator_ahead w ->
  generator_ahead (snd (Driver.collection_insertOne h d opts w)).
Proof.
  intros Hc Hid Ho H. unfold Driver.collection_insertOne, Driver.with_open_client.
  destruct (decide _); [exact H|].
  rewrite Hid, Hc. unfold bind, ret, update, read, reject. cbn [fst snd].
  match goal with
  | |- context [existsb ?f ?l] => destruct (existsb f l)
  end; cbn [snd]; [exact H|].
  intros x ox Hin Hx. unfold documents in Hin. cbn [store set_store emit] in Hin.
  rewrite lookup_insert_eq in Hin. cbn [default] in Hin.
  apply List.in_app_iff in Hin as [Hin|[<-|[]]].
  - exact (H x ox Hin Hx).
  - cbn in Hx. inversion Hx; subst ox. exact Ho.
Qed.

(** Adding a comment keeps the generator ahead, whether it succeeds or
    fails: the identifier it consumes is below the next one. *)
Lemma insertarComentarios_ahead_kept config name email movieId text :
  Preserves ahead_kept (insertarComentarios config name email movieId text).
Proof.
  intros w Hahead. unfold insertarComentarios. unfold console_log at 1. rewrite bind_update.
  set (w0 := emit _ w).
  destruct (try_connect_resolves config "Error de conexión a la base de datos: " w0)
    as (w1 & H1 & _).
  pose proof (try_connect_data_kept _ _ _ _ H1) as [Hs Hn].
  rewrite (bind_resolved _ _ _ _ _ H1), bind_fresh_ObjectId.
  assert (Hdocs : documents w1 "comments" = documents w "comments")
    by (unfold documents; now rewrite Hs).
  assert (Hnext : oid_next w1 = oid_next w) by exact Hn.
  set (w2 := set_oid_next (N.succ (oid_next w1)) w1).
  assert (H2 : generator_ahead w2).
  { apply (generator_ahead_later w); [exact Hdocs | cbn; lia | exact Hahead]. }
  unfold ObjectId_new. destruct (ObjectId_parse movieId) as [movie|]; [|exact H2].
  rewrite (bind_resolved _ _ w2 movie w2 eq_refl).
  unfold Date_new. rewrite bind_read, bind_ret.
  unfold Mongo.InsertOne, Mongo.Collection. unfold bind at 1 2, read at 1.
  destruct (DB w2) as [h|]; [|exact H2].
  apply (insertOne_ahead _ _ _ (OID (oid_next w1))); [reflexivity | reflexivity | | exact H2].
  cbn. lia.
Qed.

Lemma serve_ahead_kept config r : Preserves ahead_kept (serve config r).
Proof.
  destruct r as [title|movieId|movieId|name email movieId text].
  1-3: apply (Preserves_sub data_kept); [apply data_kept_ahead_kept|];
       apply reading_routes_data_kept; discriminate.
  cbn [serve]. unfold addComment.
  preserves_by ltac:(apply insertarComentarios_ahead_kept).
Qed.

Lemma serve_all_generator_ahead config rs w :
  generator_ahead w -> generator_ahead (serve_all config rs w).
Proof.
  apply (Preserves_fold ahead_kept). intros w0 r. apply serve_ahead_kept.
Qed.

Lemma serve_all_usable config rs w : usable w -> usable (serve_all config rs w).
Proof.
  intros (d & Hd & Hopen).
  destruct (serve_all_connected_handles config rs w (ex_intro _ d Hd)) as (HDB & _ & Hcl & _).
  exists d. rewrite HDB, Hcl. auto.
Qed.

(** C2. With a usable connection and a generator ahead of the stored
    comments to start with, every call of add-comment with a well-formed
    movie id, made after any sequence of requests, succeeds: it appends to
    the comments one document whose [_id] is the identifier generated for
    the call, an identifier of no earlier comment, whose [movie_id] is the
    given movie and whose [date] is the clock reading of the call; the
    connection stays usable and the generator ahead, and the comments query
    for that movie, run afterwards, includes the new comment. *)
Theorem add_comment_persists config rs name email movieId text movie w0 :
  usable w0 ->
  generator_ahead w0 ->
  ObjectId_parse movieId = Some movie ->
  let w := serve_all config rs w0 in
  let id := OID (oid_next w) in
  let c := comentario id movie name email text (clock w) in
  exists w',
    addComment config name email movieId text w
    = (Resolved (response_send (JInsertOneResult (VObjectId id))), w')
    /\ documents w' "comments" = documents w "comments" ++ [c]
    /\ (forall d, In d (documents w "comments") -> doc_id d <> Some (VObjectId id))
    /\ usable w' /\ generator_ahead w'
    /\ exists result w'',
         obtenerComentarios config movieId w' = (Resolved (JDocs result), w'')
         /\ In (only_fields ["_id"; "name"; "email"; "text"; "date"] c) result.
Proof.
  intros Hu0 Ha0 Hp w id c.
  assert (Hu : usable w) by exact (serve_all_usable config rs w0 Hu0).
  assert (Ha : generator_ahead w) by exact (serve_all_generator_ahead config rs w0 Ha0).
  pose proof (generator_ahead_fresh w Ha) as Hfresh.
  pose proof (insertarComentarios_usable config name email movieId text movie w Hu Hp Hfresh)
    as Hins.
  exists (after_insert c w). split.
  { unfold addComment. now rewrite (bind_resolved _ _ _ _ _ Hins). }
  assert (Hdocs : documents (after_insert c w) "comments" = documents w "comments" ++ [c]).
  { unfold documents at 1. cbn [after_insert store set_store]. now rewrite lookup_insert_eq. }
  split; [exact Hdocs|]. split; [exact (has_id_false _ _ Hfresh)|].
  assert (Hu' : usable (after_insert c w)).
  { destruct Hu as (d & Hd & Hc). exists d. split; assumption. }
  split; [exact Hu'|]. split.
  { pose proof (insertarComentarios_ahead_kept config name email movieId text w Ha) as Hk.
    now rewrite Hins in Hk. }
  eexists _, _. split; [exact (obtenerComentarios_usable config movieId movie _ Hu' Hp)|].
  apply List.in_map. apply List.filter_In. split.
  - rewrite Hdocs. apply List.in_or_app. right. now left.
  - apply has_oid_true. reflexivity.
Qed.

Lemma generator_ahead_connected : generator_ahead Sample.connected.
Proof.
  intros d o Hin Hid. vm_compute in Hin. destruct Hin as [<-|[]].
  vm_compute in Hid. inversion Hid. reflexivity.
Qed.

Lemma add_comment_persists_witness :
  exists w',
    addComment Sample.conf "Ana" "ana@x.com" Sample.up_id "great film"
      (serve_all Sample.conf [PostAddComment "Bo" "bo@x.com" Sample.up_id "a classic"]
         Sample.connected)
    = (Resolved (response_send (JInsertOneResult (VObjectId (OID 257)))), w')
    /\ documents w' "comments"
       = [Sample.ana;
          comentario (OID 256) (OID 1) "Bo" "bo@x.com" "a classic" 2000;
          comentario (OID 257) (OID 1) "Ana" "ana@x.com" "great film" 2000].
Proof.
  destruct (add_comment_persists Sample.conf
              [PostAddComment "Bo" "bo@x.com" Sample.up_id "a classic"]
              "Ana" "ana@x.com" Sample.up_id "great film" (OID 1) Sample.connected
              usable_connected generator_ahead_connected eq_refl)
    as (w' & H1 & H2 & _).
  exists w'. split; [exact H1 | exact H2].
Defined.

(* ===================================================================== *)
(** ** What a handler does after a failed defensive connect *)
(* ===================================================================== *)





(* ===================================================================== *)
(** ** Malformed identifiers and the empty title *)
(* ===================================================================== *)

Lemma ObjectId_new_malformed s w :
  ObjectId_parse s = None ->
  exists msg, ObjectId_new s w = (Rejected (ErrBSON msg), w).
Proof. intros H. unfold ObjectId_new. rewrite H. eexists. reflexivity. Qed.

Lemma obtenerDetalle_malformed config movieId w :
  ObjectId_parse movieId = None ->
  exists msg w', obtenerDetalle config movieId w = (Rejected (ErrBSON msg), w') /\ silent w w'.
Proof.
  intros H. unfold obtenerDetalle.
  destruct (try_connect_resolves config "Error conectando a base de datos: " w)
    as (w1 & H1 & Hs).
  rewrite (bind_resolved _ _ _ _ _ H1).
  destruct (ObjectId_new_malformed movieId w1 H) as [msg Hm].
  rewrite (bind_rejected _ _ _ _ _ Hm). eauto.
Qed.

Lemma obtenerComentarios_malformed config movieId w :
  ObjectId_parse movieId = None ->
  exists msg w', obtenerComentarios config movieId w = (Rejected (ErrBSON msg), w') /\ silent w w'.
Proof.
  intros H. unfold obtenerComentarios.
  destruct (try_connect_resolves config "Error conectandose a la base de datos: " w)
    as (w1 & H1 & Hs).
  rewrite (bind_resolved _ _ _ _ _ H1).
  destruct (ObjectId_new_malformed movieId w1 H) as [msg Hm].
  rewrite (bind_rejected _ _ _ _ _ Hm). eauto.
Qed.

Lemma insertarComentarios_malformed config name email movieId text w :
  ObjectId_parse movieId = None ->
  exists msg w',
    insertarComentarios config name email movieId text w = (Rejected (ErrBSON msg), w')
    /\ silent w w'.
Proof.
  intros H. unfold insertarComentarios. unfold console_log at 1. rewrite bind_update.
  set (w0 := emit _ w).
  destruct (try_connect_resolves config "Error de conexión a la base de datos: " w0)
    as (w1 & H1 & Hs).
  rewrite (bind_resolved _ _ _ _ _ H1). rewrite bind_fresh_ObjectId.
  destruct (ObjectId_new_malformed movieId (set_oid_next (N.succ (oid_next w1)) w1) H)
    as [msg Hm].
  rewrite (bind_rejected _ _ _ _ _ Hm). eexists _, _. split; [reflexivity|].
  transitivity w0; [now apply silent_emit|].
  transitivity w1; [exact Hs|]. split; reflexivity.
Qed.

(** X5. A movie id that is not well formed (neither 12 bytes nor 24
    hexadecimal digits) makes the three routes that take one fail with the error of the identifier constructor, in every state of
    the connection: no response is sent, nothing is asked of the server and
    the database stays as it was. *)
Theorem malformed_id_rejected config movieId w :
  ObjectId_parse movieId = None ->
  (exists msg w', details config movieId w = (Rejected (ErrBSON msg), w') /\ silent w w')
  /\ (exists msg w', comments config movieId w = (Rejected (ErrBSON msg), w') /\ silent w w')
  /\ (forall name email text,
        exists msg w',
          addComment config name email movieId text w = (Rejected (ErrBSON msg), w')
          /\ silent w w').
Proof.
  intros H. split; [|split].
  - destruct (obtenerDetalle_malformed config movieId w H) as (msg & w' & E & Hs).
    exists msg, w'. split; [|exact Hs]. unfold details. now rewrite (bind_rejected _ _ _ _ _ E).
  - destruct (obtenerComentarios_malformed config movieId w H) as (msg & w' & E & Hs).
    exists msg, w'. split; [|exact Hs]. unfold comments. now rewrite (bind_rejected _ _ _ _ _ E).
  - intros name email text.
    destruct (insertarComentarios_malformed config name email movieId text w H)
      as (msg & w' & E & Hs).
    exists msg, w'. split; [|exact Hs]. unfold addComment.
    now rewrite (bind_rejected _ _ _ _ _ E).
Qed.

Lemma malformed_id_rejected_witness :
  exists msg w',
    details Sample.conf "not-an-id" Sample.offline = (Rejected (ErrBSON msg), w')
    /\ silent Sample.offline w'.
Proof. exact (proj1 (malformed_id_rejected Sample.conf "not-an-id" Sample.offline eq_refl)). Defined.

(** X6. An empty [title] is treated as a missing one: the route answers
    "Error" and asks nothing of the server, although the handler, given the
    empty title, would return every movie that has a title. *)
Theorem empty_title_answers_Error config w :
  getMoviesByTitle config (Some "") w
  = (Resolved {| status := 200; body := JString "Error" |},
     emit (EvLog [LVal (JString "Error")]) w)
  /\ (usable w ->
      fst (obtenerPeliculasPorTitulo config "" w)
      = Resolved (JDocs (map (only_fields ["_id"; "title"])
                             (List.filter
                                (fun d => match doc_get "title" d with
                                          | Some (VString _) => true
                                          | Some (VStrings l) => negb (Nat.eqb (List.length l) 0)
                                          | _ => false
                                          end)
                                (documents w "movies"))))).
Proof.
  split; [reflexivity|]. intros Hu.
  rewrite (obtenerPeliculasPorTitulo_usable config "" w Hu eq_refl). cbn [fst].
  do 3 f_equal. apply List.filter_ext. intros d. unfold title_matchb.
  destruct (doc_get "title" d) as [[s|n|o|z|l]|]; try reflexivity.
  - cbn [chars list_ascii_of_string map]. destruct (chars s); reflexivity.
  - destruct l as [|x l]; [reflexivity|]. cbn [existsb chars list_ascii_of_string map].
    destruct (chars x); reflexivity.
Qed.

(* ===================================================================== *)
(** ** More on the connection manager *)
(* ===================================================================== *)

(** X7. [Connect] resolves exactly when it leaves a database handle set; a
    rejected [Connect] never leaves one. *)
Theorem Connect_resolves_iff_handle conf w :
  ((exists v, fst (Mongo.Connect conf w) = Resolved v)
   <-> is_Some (DB (snd (Mongo.Connect conf w))))
  /\ ((exists e, fst (Mongo.Connect conf w) = Rejected e)
      <-> DB (snd (Mongo.Connect conf w)) = None).
Proof.
  destruct (DB w) as [d|] eqn:E.
  - rewrite (Connect_connected conf w d E). cbn [fst snd]. rewrite E. split; split.
    + eauto.
    + eauto.
    + intros [e H]. discriminate.
    + discriminate.
  - destruct (Connect_cases conf w E) as [(e & w1 & H & Hn & _)|(d & w1 & H & Hd & _)];
      rewrite H; cbn [fst snd]; split; split.
    + intros [v Hv]. discriminate.
    + rewrite Hn. intros [x Hx]. discriminate.
    + intros _. exact Hn.
    + eauto.
    + eauto.
    + rewrite Hd. eauto.
    + intros [e He]. discriminate.
    + rewrite Hd. discriminate.
Qed.

Lemma run_coherent c w : coherent w -> coherent (snd (run c w)).
Proof.
  intros Hc.
  assert (Hother : (forall conf, c <> CallConnect conf) -> coherent (snd (run c w))).
  { intros Hne. pose proof (Keeps_run c Hne w) as Hk. intros d Hd.
    rewrite (kept_DB _ _ Hk) in Hd. rewrite (kept_clientDB _ _ Hk). now apply Hc. }
  destruct c; try (apply Hother; discriminate). clear Hother.
  cbn [run]. unfold discard. destruct (DB w) as [d|] eqn:E.
  - rewrite (Connect_connected conf w d E). exact Hc.
  - destruct (Connect_cases conf w E)
      as [(e & w1 & H & Hn & _)|(d & w1 & H & Hd & _ & _ & Hcl)]; rewrite H; cbn [snd].
    + intros d Hd. congruence.
    + intros d' Hd'. congruence.
Qed.

(** X8. From a state in which the module's two variables agree (in
    particular from the initial one, where both are unset), every sequence
    of calls to the exported functions leads to a state in which they agree:
    whenever a handle is set, the client [Close] would close is the client
    that handle uses. *)
Theorem module_stays_coherent cs w :
  coherent w ->
  coherent (run_all cs w)
  /\ forall d, DB (run_all cs w) = Some d ->
               db_client d ∈ closed (snd (Mongo.Close (run_all cs w))).
Proof.
  intros Hc.
  assert (H : coherent (run_all cs w)).
  { revert w Hc. induction cs as [|c cs IH]; intros w Hc; cbn; [exact Hc|].
    apply IH, run_coherent, Hc. }
  split; [exact H|]. intros d Hd. unfold Mongo.Close, bind, read.
  rewrite (H d Hd). cbn. set_solver.
Qed.

Lemma module_stays_coherent_witness :
  coherent (run_all [CallConnect Sample.dotted_conf; CallConnect Sample.conf; CallClose]
                    Sample.fresh).
Proof.
  apply (module_stays_coherent
           [CallConnect Sample.dotted_conf; CallConnect Sample.conf; CallClose] Sample.fresh).
  intros d H. discriminate H.
Defined.

(** X9. [Close] resets nothing: it leaves both module variables as they
    were, so a second [Close] answers as the first did and closes no
    further client. *)
Theorem Close_twice w :
  let w1 := snd (Mongo.Close w) in
  DB w1 = DB w /\ clientDB w1 = clientDB w
  /\ fst (Mongo.Close w1) = fst (Mongo.Close w)
  /\ closed (snd (Mongo.Close w1)) = closed w1.
Proof.
  cbn zeta. unfold Mongo.Close, bind, read.
  destruct (clientDB w) as [c|] eqn:E; cbn; rewrite E; cbn.
  - split; [reflexivity|]. split; [reflexivity|]. split; [reflexivity|].
    apply set_eq. intros x. rewrite !elem_of_union. tauto.
  - repeat split.
Qed.

(** X10. When the client connects and the database name is then refused,
    [Connect] rejects with the client kept in [clientDB] and no handle set:
    operations report "Not connected", while [Close] succeeds and closes
    that client. *)
Theorem refused_database_leaves_client conf w rest :
  DB w = None ->
  net w = AnswerClient :: rest ->
  Driver.valid_db_name (db conf) = false ->
  let w1 := snd (Mongo.Connect conf w) in
  (exists e, fst (Mongo.Connect conf w) = Rejected e)
  /\ DB w1 = None /\ clientDB w1 = Some (clients w) /\ clients w1 = S (clients w)
  /\ (forall c, Mongo.Collection c w1 = (Rejected (ErrString "Not connected"), w1))
  /\ fst (Mongo.Close w1) = Resolved JUndefined
  /\ clients w ∈ closed (snd (Mongo.Close w1)).
Proof.
  intros HDB Hnet Hname. cbn zeta.
  set (w1 := set_clientDB (Some (clients w))
               (set_clients (S (clients w))
                  (emit (EvConnect (uri conf) AnswerClient) (set_net rest w)))).
  assert (HC : exists e, Mongo.Connect conf w = (Rejected e, w1)).
  { unfold Mongo.Connect, bind, read. rewrite HDB. unfold Driver.connect. rewrite Hnet.
    cbn. unfold Driver.client_db. rewrite Hname. eexists. reflexivity. }
  destruct HC as [e HC]. rewrite HC. cbn [fst snd].
  split; [eauto|]. split; [exact HDB|]. split; [reflexivity|]. split; [reflexivity|].
  split; [|split].
  - intros c. apply Collection_not_connected. exact HDB.
  - reflexivity.
  - unfold Mongo.Close, bind, read. cbn. set_solver.
Qed.

Lemma refused_database_leaves_client_witness :
  clientDB (snd (Mongo.Connect Sample.dotted_conf Sample.fresh)) = Some 0%nat
  /\ DB (snd (Mongo.Connect Sample.dotted_conf Sample.fresh)) = None.
Proof.
  destruct (refused_database_leaves_client Sample.dotted_conf Sample.fresh [AnswerClient]
              eq_refl eq_refl eq_refl) as (_ & H1 & H2 & _).
  split; [exact H2 | exact H1].
Defined.

Lemma try_connect_after_Connect conf (h : JsError -> Async unit) w v w1 :
  Mongo.Connect conf w = (Resolved v, w1) ->
  try_catch (Mongo.Connect conf ;;; ret tt) h w
  = try_catch (Mongo.Connect conf ;;; ret tt) h w1.
Proof.
  intros H. destruct (Connect_resolved_handle _ _ _ _ H) as [d Hd].
  rewrite (try_connect_connected conf h w1 d Hd).
  unfold try_catch. now rewrite (bind_resolved _ _ _ _ _ H).
Qed.

(** X11. The defensive [Connect] makes up for a missing connection: when
    [Connect] would resolve, a reading handler called without it answers
    and leaves the world exactly as if [Connect] had been called first. *)
Theorem handler_connects_first config w v w1 :
  Mongo.Connect config w = (Resolved v, w1) ->
  (forall t, obtenerPeliculasPorTitulo config t w = obtenerPeliculasPorTitulo config t w1)
  /\ (forall movieId, obtenerDetalle config movieId w = obtenerDetalle config movieId w1)
  /\ (forall movieId, obtenerComentarios config movieId w = obtenerComentarios config movieId w1).
Proof.
  intros H. split; [|split]; intros x.
  - unfold obtenerPeliculasPorTitulo, bind at 1 3.
    now rewrite (try_connect_after_Connect config _ w v w1 H).
  - unfold obtenerDetalle, bind at 1 5.
    now rewrite (try_connect_after_Connect config _ w v w1 H).
  - unfold obtenerComentarios, bind at 1 5.
    now rewrite (try_connect_after_Connect config _ w v w1 H).
Qed.

Lemma handler_connects_first_witness :
  obtenerComentarios Sample.conf Sample.up_id Sample.fresh
  = obtenerComentarios Sample.conf Sample.up_id Sample.connected.
Proof.
  exact (proj2 (proj2 (handler_connects_first Sample.conf Sample.fresh (JBool true)
                         Sample.connected eq_refl)) Sample.up_id).
Defined.

(* ===================================================================== *)
(** ** More on [Find], [Count] and [InsertOne] *)
(* ===================================================================== *)

Lemma sort_insert_length keys d l :
  List.length (sort_insert keys d l) = S (List.length l).
Proof.
  induction l as [|x l IH]; [reflexivity|]. cbn [sort_insert].
  destruct (doc_le keys d x); cbn; [reflexivity|now rewrite IH].
Qed.

Lemma sort_docs_length keys l : List.length (sort_docs keys l) = List.length l.
Proof.
  induction l as [|x l IH]; [reflexivity|].
  unfold sort_docs in *. cbn [fold_right]. now rewrite sort_insert_length, IH.
Qed.

Lemma sort_insert_In keys d l x : In x (sort_insert keys d l) <-> x = d \/ In x l.
Proof.
  induction l as [|y l IH]; cbn [sort_insert].
  - cbn. intuition.
  - destruct (doc_le keys d y); cbn; [intuition|]. rewrite IH. intuition.
Qed.

Lemma sort_docs_In keys l x : In x (sort_docs keys l) <-> In x l.
Proof.
  induction l as [|y l IH]; [reflexivity|].
  unfold sort_docs in *. cbn [fold_right]. rewrite sort_insert_In, IH. cbn. intuition.
Qed.

Lemma ordered_length s l : List.length (ordered s l) = List.length l.
Proof. unfold ordered. destruct (truthy_sort s); [apply sort_docs_length|reflexivity]. Qed.

Lemma ordered_In s l x : In x (ordered s l) <-> In x l.
Proof. unfold ordered. destruct (truthy_sort s); [apply sort_docs_In|reflexivity]. Qed.

Lemma In_take {A} n (l : list A) x : In x (take n l) -> In x l.
Proof.
  revert n. induction l as [|y l IH]; intros [|n]; cbn; try tauto.
  intros [->|H]; [now left|right; eauto].
Qed.

Lemma In_drop {A} n (l : list A) x : In x (drop n l) -> In x l.
Proof.
  revert n. induction l as [|y l IH]; intros [|n]; cbn; try tauto.
  intros H. right. eauto.
Qed.

Lemma up_to_In l docs x : In x (up_to l docs) -> In x docs.
Proof. destruct l as [[|]|[|n]]; cbn [up_to]; try tauto; apply In_take. Qed.

Lemma up_to_length l docs :
  List.length (up_to l docs) = window_size l 0 (List.length docs).
Proof.
  destruct l as [[|]|[|n]]; cbn [up_to window_size]; rewrite ?length_take, ?Nat.sub_0_r;
    reflexivity.
Qed.

Lemma matching_window_length p s l skip sel :
  List.length (matching_window p s l skip sel) = window_size l skip (List.length sel).
Proof.
  unfold matching_window. rewrite List.length_map, up_to_length, length_drop, ordered_length.
  destruct l as [[|]|[|n]]; cbn [window_size]; rewrite ?Nat.sub_0_r; reflexivity.
Qed.

(** X12. The size of what [Find] returns: with a limit other than [true],
    a sequence of [min limit (matches - skip)] documents, or of
    [matches - skip] when the limit is falsy; with the limit [true],
    [undefined] exactly when [skip] leaves no match. *)
Theorem Find_result_size coll q p s limit skip w sel :
  usable w ->
  proj_valid (default [] p) = true ->
  select q (documents w coll) = Some sel ->
  (strict_eq_true limit = false ->
   exists r, fst (Mongo.Find coll q p s limit skip w) = Resolved (JDocs r)
             /\ List.length r = window_size limit skip (List.length sel))
  /\ (strict_eq_true limit = true ->
      (fst (Mongo.Find coll q p s limit skip w) = Resolved JUndefined
       <-> List.length sel <= skip)%nat).
Proof.
  intros Hu Hp Hsel. rewrite (Find_usable coll q p s limit skip w sel Hu Hp Hsel).
  cbn [fst]. split; intros Hl; rewrite Hl.
  - eexists. split; [reflexivity|]. apply matching_window_length.
  - pose proof (matching_window_length (default [] p) s limit skip sel) as Hlen.
    destruct limit as [[|]|n]; try discriminate Hl. cbn [window_size] in Hlen.
    destruct (matching_window _ _ _ _ _) as [|d r];
      cbn [List.length Mongo.first_or_undefined] in *.
    + split; [intros _|reflexivity]. lia.
    + split; [discriminate|]. lia.
Qed.

Lemma Find_result_size_witness :
  exists r,
    fst (Mongo.Find "movies" FAll None Mongo.default_sort (LimNum 5) 1 Sample.connected)
    = Resolved (JDocs r)
    /\ List.length r = 1%nat.
Proof.
  exact (proj1 (Find_result_size "movies" FAll None Mongo.default_sort (LimNum 5) 1
                  Sample.connected [Sample.up; Sample.matrix] usable_connected eq_refl eq_refl)
           eq_refl).
Defined.

(** X13. What [Find] returns is sound: every document of the answer is the
    projection of a stored document that matches the filter. With a falsy
    limit and no skip it is complete as well: every stored document that
    matches has its projection in the answer. *)
Theorem Find_sound_and_complete coll q p s limit skip w sel :
  usable w ->
  proj_valid (default [] p) = true ->
  select q (documents w coll) = Some sel ->
  strict_eq_true limit = false ->
  exists r,
    fst (Mongo.Find coll q p s limit skip w) = Resolved (JDocs r)
    /\ (forall x, In x r ->
          exists d, In d (documents w coll) /\ filter_matches q d = Some true
                    /\ x = project (default [] p) d)
    /\ (truthy_limit limit = false -> skip = 0%nat ->
        forall d, In d (documents w coll) -> filter_matches q d = Some true ->
                  In (project (default [] p) d) r).
Proof.
  intros Hu Hp Hsel Hl. rewrite (Find_usable coll q p s limit skip w sel Hu Hp Hsel).
  cbn [fst]. rewrite Hl. eexists. split; [reflexivity|]. unfold matching_window. split.
  - intros x Hx. apply List.in_map_iff in Hx as (d & <- & Hd).
    apply up_to_In, In_drop, ordered_In in Hd.
    apply (select_In q _ sel Hsel) in Hd as [Hin Hm]. eauto.
  - intros Hf -> d Hin Hm. apply List.in_map. rewrite drop_0.
    assert (Hup : up_to limit (ordered s sel) = ordered s sel)
      by (destruct limit as [[|]|[|n]]; try discriminate Hf; reflexivity).
    rewrite Hup. apply ordered_In. apply (select_In q _ sel Hsel). auto.
Qed.

Lemma Find_sound_and_complete_witness :
  exists r,
    fst (Mongo.Find "movies" (FEq "year" (VNumber 1999)) None Mongo.default_sort
           Mongo.default_limit 0 Sample.connected) = Resolved (JDocs r)
    /\ In Sample.matrix r.
Proof.
  destruct (Find_sound_and_complete "movies" (FEq "year" (VNumber 1999)) None
              Mongo.default_sort Mongo.default_limit 0 Sample.connected [Sample.matrix]
              usable_connected eq_refl eq_refl eq_refl) as (r & H & _ & Hc).
  exists r. split; [exact H|].
  apply (Hc eq_refl eq_refl Sample.matrix); [right; left; reflexivity|reflexivity].
Defined.

(** X14. Pages add up: a page of [n] documents followed by the page of [m]
    documents that starts where it ends make the page of [n + m]
    documents, when the stored documents are the same for the calls. *)
Theorem Find_pages_concatenate coll q p s n m skip w sel :
  usable w ->
  proj_valid (default [] p) = true ->
  select q (documents w coll) = Some sel ->
  (0 < n)%nat -> (0 < m)%nat ->
  exists r1 r2 w1 w2,
    Mongo.Find coll q p s (LimNum n) skip w = (Resolved (JDocs r1), w1)
    /\ Mongo.Find coll q p s (LimNum m) (skip + n) w1 = (Resolved (JDocs r2), w2)
    /\ fst (Mongo.Find coll q p s (LimNum (n + m)) skip w) = Resolved (JDocs (r1 ++ r2)).
Proof.
  intros Hu Hp Hsel Hn Hm. eexists _, _, _, _. split; [|split].
  - exact (Find_usable coll q p s (LimNum n) skip w sel Hu Hp Hsel).
  - exact (Find_usable coll q p s (LimNum m) (skip + n) _ sel
             (usable_emit _ w Hu) Hp Hsel).
  - rewrite (Find_usable coll q p s (LimNum (n + m)) skip w sel Hu Hp Hsel).
    cbn [fst strict_eq_true]. do 2 f_equal. unfold matching_window.
    rewrite <- List.map_app. f_equal.
    destruct n as [|n]; [lia|]. destruct m as [|m]; [lia|].
    cbn [up_to Nat.add]. rewrite <- drop_drop. symmetry.
    apply (take_take_drop _ (S n) (S m)).
Qed.

Lemma Find_pages_concatenate_witness :
  exists r1 r2 w1 w2,
    Mongo.Find "movies" FAll None Mongo.default_sort (LimNum 1) 0 Sample.connected
    = (Resolved (JDocs r1), w1)
    /\ Mongo.Find "movies" FAll None Mongo.default_sort (LimNum 1) (0 + 1) w1
       = (Resolved (JDocs r2), w2)
    /\ fst (Mongo.Find "movies" FAll None Mongo.default_sort (LimNum (1 + 1)) 0 Sample.connected)
       = Resolved (JDocs (r1 ++ r2)).
Proof.
  apply (Find_pages_concatenate "movies" FAll None Mongo.default_sort 1 1 0 Sample.connected
           [Sample.up; Sample.matrix] usable_connected eq_refl eq_refl); lia.
Defined.

Lemma take_limit_length limit sel :
  List.length (Driver.take_limit
                 (if truthy_limit limit then Some (limit_number limit) else None) sel)
  = window_size limit 0 (List.length sel).
Proof.
  destruct limit as [[|]|[|[|n]]]; cbn; rewrite ?length_take, ?Nat.sub_0_r; reflexivity.
Qed.

Lemma Count_usable coll q limit w sel :
  usable w ->
  select q (documents w coll) = Some sel ->
  Mongo.Count coll q limit w
  = (Resolved (JNumber (Z.of_nat (window_size limit 0 (List.length sel)))),
     emit (EvCount coll q) w).
Proof.
  intros (d & Hd & Hopen) Hsel. unfold Mongo.Count.
  rewrite (bind_resolved _ _ _ _ _ (Collection_connected coll w d Hd)).
  rewrite <- take_limit_length.
  destruct (truthy_limit limit); unfold Driver.collection_countDocuments;
    cbn [coll_db coll_name Driver.db_collection];
    rewrite with_open_client_open by assumption;
    unfold bind, update, read, ret;
    change (documents (emit (EvCount coll q) w) coll) with (documents w coll);
    rewrite Hsel; reflexivity.
Qed.

(** X15. [Count] answers with the number of documents [Find] returns for
    the same collection, filter and limit when nothing is skipped; with the
    limit [true] it answers 1 when some document matches and 0 when none
    does. *)
Theorem Count_agrees_with_Find coll q limit w sel :
  usable w ->
  select q (documents w coll) = Some sel ->
  (forall p s, proj_valid (default [] p) = true -> strict_eq_true limit = false ->
     exists r, fst (Mongo.Find coll q p s limit 0 w) = Resolved (JDocs r)
               /\ fst (Mongo.Count coll q limit w)
                  = Resolved (JNumber (Z.of_nat (List.length r))))
  /\ (limit = LimBool true ->
      fst (Mongo.Count coll q limit w)
      = Resolved (JNumber (match sel with [] => 0 | _ => 1 end))).
Proof.
  intros Hu Hsel. rewrite (Count_usable coll q limit w sel Hu Hsel). cbn [fst]. split.
  - intros p s Hp Hl. rewrite (Find_usable coll q p s limit 0 w sel Hu Hp Hsel).
    cbn [fst]. rewrite Hl. eexists. split; [reflexivity|].
    now rewrite matching_window_length.
  - intros ->. cbn [window_size]. destruct sel as [|d sel]; reflexivity.
Qed.

Lemma Count_agrees_with_Find_witness :
  fst (Mongo.Count "movies" FAll (LimBool true) Sample.connected) = Resolved (JNumber 1).
Proof.
  exact (proj2 (Count_agrees_with_Find "movies" FAll (LimBool true) Sample.connected
                  [Sample.up; Sample.matrix] usable_connected eq_refl) eq_refl).
Defined.

Lemma project_nothing d : project [] d = d.
Proof.
  unfold project. induction d as [|e d IH]; [reflexivity|].
  cbn [List.filter]. change (keep_field [] (fst e)) with true. cbn iota.
  f_equal. exact IH.
Qed.

Lemma has_id_has_oid o d : Driver.has_id (VObjectId o) d = has_oid "_id" o d.
Proof.
  unfold Driver.has_id, has_oid, doc_id.
  destruct (doc_get "_id" d) as [[s|n|x|z|l]|]; reflexivity.
Qed.

Lemma no_such_id o docs :
  existsb (Driver.has_id (VObjectId o)) docs = false ->
  List.filter (has_oid "_id" o) docs = [].
Proof.
  induction docs as [|d docs IH]; [reflexivity|]. cbn [existsb List.filter].
  rewrite has_id_has_oid. destruct (has_oid "_id" o d); [discriminate|exact IH].
Qed.

Lemma InsertOne_usable coll d opts o w :
  usable w ->
  doc_id d = Some (VObjectId o) \/ (doc_id d = None /\ o = OID (oid_next w)) ->
  existsb (Driver.has_id (VObjectId o)) (documents w coll) = false ->
  exists w1,
    Mongo.InsertOne coll d opts w = (Resolved (JInsertOneResult (VObjectId o)), w1)
    /\ usable w1
    /\ documents w1 coll = documents w coll ++ [Driver.with_id_first (VObjectId o) d].
Proof.
  intros (h & Hd & Hopen) Hid Hfresh. unfold Mongo.InsertOne.
  rewrite (bind_resolved _ _ _ _ _ (Collection_connected coll w h Hd)).
  unfold Driver.collection_insertOne. cbn [coll_db coll_name Driver.db_collection].
  rewrite with_open_client_open by assumption.
  destruct Hid as [Hid|[Hid ->]]; rewrite Hid;
    unfold bind, ret, update, read, Driver.fresh_ObjectId; cbn [fst snd];
    match goal with
    | |- context [existsb ?f (documents ?w0 coll)] =>
        change (documents w0 coll) with (documents w coll)
    end;
    rewrite Hfresh; eexists; (split; [reflexivity|]); split;
    try (exists h; split; assumption);
    unfold documents at 1; cbn [store set_store]; now rewrite lookup_insert_eq.
Qed.

(** X16. Insert, then look up: on a usable connection, a document whose
    [_id] is an identifier not yet in the collection (its own, or the
    generated one when it has none) is stored at the end of the collection
    with [_id] as its first field, the answer names that identifier, and
    [Find] by that identifier with the limit [true] returns the stored
    document. *)
Theorem InsertOne_then_Find coll d opts o w :
  usable w ->
  doc_id d = Some (VObjectId o) \/ (doc_id d = None /\ o = OID (oid_next w)) ->
  existsb (Driver.has_id (VObjectId o)) (documents w coll) = false ->
  exists w1,
    Mongo.InsertOne coll d opts w = (Resolved (JInsertOneResult (VObjectId o)), w1)
    /\ documents w1 coll = documents w coll ++ [Driver.with_id_first (VObjectId o) d]
    /\ fst (Mongo.Find coll (FEq "_id" (VObjectId o)) None Mongo.default_sort
              (LimBool true) 0 w1)
       = Resolved (JDoc (Driver.with_id_first (VObjectId o) d)).
Proof.
  intros Hu Hid Hfresh.
  destruct (InsertOne_usable coll d opts o w Hu Hid Hfresh) as (w1 & H1 & Hu1 & Hdocs).
  exists w1. split; [exact H1|]. split; [exact Hdocs|].
  assert (Hsel : select (FEq "_id" (VObjectId o)) (documents w1 coll)
                 = Some [Driver.with_id_first (VObjectId o) d]).
  { rewrite select_oid, Hdocs, List.filter_app, (no_such_id o _ Hfresh).
    cbn [List.filter app].
    assert (Hx : has_oid "_id" o (Driver.with_id_first (VObjectId o) d) = true)
      by (apply has_oid_true; reflexivity).
    now rewrite Hx. }
  rewrite (Find_usable coll _ (@None Projection) Mongo.default_sort (LimBool true) 0 w1 _
             Hu1 eq_refl Hsel).
  cbn [fst strict_eq_true].
  transitivity (Resolved (JDoc (project [] (Driver.with_id_first (VObjectId o) d))));
    [reflexivity | now rewrite project_nothing].
Qed.

Lemma InsertOne_then_Find_witness :
  exists w1,
    Mongo.InsertOne "movies" [("title", VString "Heat")] None Sample.connected
    = (Resolved (JInsertOneResult (VObjectId (OID 256))), w1)
    /\ fst (Mongo.Find "movies" (FEq "_id" (VObjectId (OID 256))) None Mongo.default_sort
              (LimBool true) 0 w1)
       = Resolved (JDoc [("_id", VObjectId (OID 256)); ("title", VString "Heat")]).
Proof.
  destruct (InsertOne_then_Find "movies" [("title", VString "Heat")] None (OID 256)
              Sample.connected usable_connected (or_intror (conj eq_refl eq_refl)) eq_refl)
    as (w1 & H1 & _ & H2).
  exists w1. split; [exact H1 | exact H2].
Defined.

(* ===================================================================== *)
(** ** Letter case in the title search *)
(* ===================================================================== *)

Lemma rx_search_lower p p' s :
  lower p = lower p' ->
  rx_search ci_flags (map RxLit p) s = rx_search ci_flags (map RxLit p') s.
Proof.
  intros H. apply eq_true_iff_eq. rewrite !rx_search_lits. now rewrite H.
Qed.

Lemma title_matchb_lower t t' d :
  lower (chars t) = lower (chars t') -> title_matchb t d = title_matchb t' d.
Proof.
  intros H. unfold title_matchb.
  destruct (doc_get "title" d) as [[s|n|o|z|l]|]; try reflexivity.
  - now apply rx_search_lower.
  - induction l as [|x l IH]; [reflexivity|]. cbn [existsb].
    now rewrite IH, (rx_search_lower _ _ _ H).
Qed.

(** X17. The title search ignores the letter case of the title asked for:
    on a usable connection, two titles without pattern characters that
    differ only in the case of ASCII letters get the same answer. *)
Theorem title_search_ignores_query_case config t t' w :
  usable w ->
  plain_pattern t -> plain_pattern t' ->
  lower (chars t) = lower (chars t') ->
  fst (obtenerPeliculasPorTitulo config t w) = fst (obtenerPeliculasPorTitulo config t' w).
Proof.
  intros Hu Hp Hp' H.
  rewrite (obtenerPeliculasPorTitulo_usable config t w Hu Hp),
          (obtenerPeliculasPorTitulo_usable config t' w Hu Hp').
  cbn [fst]. do 3 f_equal. apply List.filter_ext. intros d. now apply title_matchb_lower.
Qed.

Lemma title_search_ignores_query_case_witness :
  fst (obtenerPeliculasPorTitulo Sample.conf "MATRIX" Sample.connected)
  = fst (obtenerPeliculasPorTitulo Sample.conf "matrix" Sample.connected).
Proof.
  exact (title_search_ignores_query_case Sample.conf "MATRIX" "matrix" Sample.connected
           usable_connected eq_refl eq_refl eq_refl).
Defined.
